(** * GPL training pipeline: the orchestrator [gpl/train.py]

    A shallow embedding of the function [train] of [gpl/train.py] and of the
    part of the Python runtime it talks to (the [os] module and the
    file system), followed by the properties of the pipeline that the
    design document states about it.

    The collaborators that [train] imports ([qgen], [NegativeMiner],
    [PseudoLabeler], [resize], [evaluate], the BeIR data loader, the
    sentence-transformers model) are kept abstract: they are the fields of a
    record [Toolkit], and every theorem about [train] is stated for an
    arbitrary toolkit unless it says otherwise. *)

From Stdlib Require Import ZArith Ascii String List.
From stdpp Require Import base option list sorting strings gmap pretty.

(** ** Path names *)

(** A location on the disk: the names from the root down to it. *)
Abbreviation loc := (list string).

Module os.
Module path.

(** [sep] is "/" (posixpath). *)
Definition sep : ascii := "/"%char.

Definition startswith_sep (s : string) : bool :=
  match s with
  | String c _ => bool_decide (c = sep)
  | EmptyString => false
  end.

Fixpoint endswith_sep (s : string) : bool :=
  match s with
  | EmptyString => false
  | String c EmptyString => bool_decide (c = sep)
  | String _ s' => endswith_sep s'
  end.

(** [os.path.join(a, b)] of posixpath, for one joined component:
<<
    if b.startswith(sep): path = b
    elif not path or path.endswith(sep): path += b
    else: path += sep + b
>> *)
Definition join (a b : string) : string :=
  if startswith_sep b then b
  else if bool_decide (a = "") || endswith_sep a then a +:+ b
  else a +:+ String sep b.

(** The pieces of a path name between its separators. The result is never
    empty; a leading, trailing or doubled separator shows as an empty
    piece. *)
Fixpoint split_sep (s : string) : list string :=
  match s with
  | EmptyString => [""]
  | String c s' =>
      if bool_decide (c = sep) then "" :: split_sep s'
      else match split_sep s' with
           | w :: ws => String c w :: ws
           | [] => [String c ""]
           end
  end.

(** The components of a path name: its pieces that are not empty. *)
Definition components (s : string) : list string :=
  filter (λ c, c ≠ "") (split_sep s).

(** [(p[:i], p[i:])] for [i = p.rfind(sep) + 1]: the name up to its last
    separator, and what follows it. *)
Fixpoint rpartition (p : string) : string * string :=
  match p with
  | EmptyString => ("", "")
  | String c p' =>
      let '(h, t) := rpartition p' in
      if bool_decide (h = "") then
        if bool_decide (c = sep) then (String c "", t) else ("", String c t)
      else (String c h, t)
  end.

(** [s.rstrip(sep)] *)
Fixpoint rstrip_sep (s : string) : string :=
  match s with
  | EmptyString => ""
  | String c s' =>
      let r := rstrip_sep s' in
      if bool_decide (r = "") && bool_decide (c = sep) then "" else String c r
  end.

(** [os.path.split(p)] of posixpath:
<<
    i = p.rfind(sep) + 1
    head, tail = p[:i], p[i:]
    if head and head != sep*len(head):
        head = head.rstrip(sep)
    return head, tail
>>
    A head that is made of separators alone strips to the empty string and
    is kept as it is. *)
Definition split (p : string) : string * string :=
  let '(head, tail) := rpartition p in
  (if bool_decide (rstrip_sep head = "") then head else rstrip_sep head, tail).

End path.
End os.

(** ** The file system *)

(** A node is a regular file with its content, or a directory. The nodes are
    keyed by their location; the root is a directory that needs no entry. A
    node is on the disk when every location above it holds a directory:
    name resolution reaches no other. *)
Inductive node : Type :=
| File (content : string)
| Dir.

Global Instance node_eq_dec : EqDecision node.
Proof. solve_decision. Defined.

Record fs : Type := FS {
  cwd : loc;
  nodes : gmap loc node;
}.

Definition node_at (f : fs) (p : loc) : option node :=
  match p with
  | [] => Some Dir
  | _ => nodes f !! p
  end.

(** [child_name d k] is [Some n] when [k] is the entry named [n] of the
    directory at [d]. *)
Definition child_name (d k : loc) : option string :=
  match last k with
  | Some n => if decide (k = d ++ [n]) then Some n else None
  | None => None
  end.

(** The names in a directory, in the (unspecified) order of the store. *)
Definition entries (f : fs) (d : loc) : list string :=
  omap (child_name d) (map fst (map_to_list (nodes f))).

(** ** Exceptions and outcomes *)

(** The exceptions of the run: the ones [train] and the [os] functions raise
    themselves, and [LibraryError] for any other class a collaborator may
    raise. Every one of them is an [Exception]. *)
Inductive exn : Type :=
| AssertionError (msg : option string)
| FileNotFoundError (name : string)
| NotADirectoryError (name : string)
| FileExistsError (name : string)
| TypeError (msg : string)
| ValueError (msg : string)
| LibraryError (what : string).

Inductive outcome (A : Type) : Type :=
| Ok (a : A)
| Raise (e : exn).
Arguments Ok {A} a.
Arguments Raise {A} e.

(** An operation that only reads the file system, and one that may change
    it. What an operation wrote before it raised stays written. *)
Abbreviation reader A := (fs → outcome A).
Abbreviation action A := (fs → outcome A * fs).

(** ** The [os] functions [train] calls *)

(** The system calls behind [os.listdir], [os.stat] and [os.mkdir] on a
    POSIX system without symbolic links, and the functions of the Python
    library [train] calls, which are written on top of them. Names are
    taken to hold no NUL character and to stay within the lengths the
    system allows; every directory may be searched and written. *)
Module posix.

Inductive errno : Type := ENOENT | ENOTDIR | EEXIST.

(** [OSError] picks its subclass by the error number, and carries the name
    the call was given. *)
Definition oserror (e : errno) (name : string) : exn :=
  match e with
  | ENOENT => FileNotFoundError name
  | ENOTDIR => NotADirectoryError name
  | EEXIST => FileExistsError name
  end.

(** One component of a name, taken at the directory [at_]: "." stays, ".."
    goes to the parent (the root is its own parent), any other name goes
    down to the entry of that name. *)
Definition step (at_ : loc) (c : string) : loc :=
  if bool_decide (c = ".") then at_
  else if bool_decide (c = "..") then removelast at_
  else at_ ++ [c].

(** Path resolution, component by component: a component is looked up in
    what the components before it led to, which has to be there (ENOENT)
    and to be a directory (ENOTDIR). What the last component leads to is
    not looked at. *)
Fixpoint walk (f : fs) (at_ : loc) (cs : list string) : errno + loc :=
  match cs with
  | [] => inr at_
  | c :: cs' =>
      match node_at f at_ with
      | None => inl ENOENT
      | Some (File _) => inl ENOTDIR
      | Some Dir => walk f (step at_ c) cs'
      end
  end.

(** Where the resolution of a name starts: an absolute name at the root, any
    other at the working directory, which is itself reached from the
    root. *)
Definition origin (f : fs) (name : string) : list string :=
  if os.path.startswith_sep name then [] else cwd f.

(** The location a name resolves to; what is there, if anything, is for the
    caller to see. The empty name resolves to nothing, and a name that ends
    in a separator only to a directory. *)
Definition lookup (f : fs) (name : string) : errno + loc :=
  if bool_decide (name = "") then inl ENOENT
  else
    match walk f [] (origin f name ++ os.path.components name) with
    | inl e => inl e
    | inr d =>
        if os.path.endswith_sep name then
          match node_at f d with
          | None => inl ENOENT
          | Some (File _) => inl ENOTDIR
          | Some Dir => inr d
          end
        else inr d
    end.

(** What is at a path name, if anything ([os.stat], without the errors). *)
Definition stat (name : string) (f : fs) : option node :=
  match lookup f name with
  | inr d => node_at f d
  | inl _ => None
  end.

(** [os.listdir(name)]; [os.listdir(None)] lists the working directory. *)
Definition listdir (name : option string) : reader (list string) := λ f,
  let s := default "." name in
  match lookup f s with
  | inl e => Raise (oserror e s)
  | inr d =>
      match node_at f d with
      | Some Dir => Ok (entries f d)
      | Some (File _) => Raise (NotADirectoryError s)
      | None => Raise (FileNotFoundError s)
      end
  end.

(** [os.path.exists(name)] and [os.path.isdir(name)]: [os.stat] with its
    errors turned into [False]. *)
Definition exists_ (name : string) (f : fs) : bool :=
  bool_decide (is_Some (stat name f)).

Definition isdir (name : string) (f : fs) : bool :=
  bool_decide (stat name f = Some Dir).

(** The entry [name] of the directory called [dir]. *)
Definition entry (dir name : string) (f : fs) : option node :=
  match lookup f dir with
  | inr d =>
      match node_at f d with
      | Some Dir => nodes f !! (d ++ [name])
      | _ => None
      end
  | inl _ => None
  end.

(** An empty directory at a location that holds nothing: whatever the store
    kept below it was not on the disk, and is not kept. *)
Definition create (d : loc) (f : fs) : fs :=
  FS (cwd f)
     (<[d := Dir]> (filter (λ kv, ¬ d `prefix_of` kv.1) (nodes f))).

(** [os.mkdir(name)]. The name is resolved up to its last component, which
    names the directory to make in what the others lead to; separators
    after it do not count. A last component that is "." or "..", or no
    component at all (the root), names a directory that is there. *)
Definition mkdir (name : string) : action unit := λ f,
  if bool_decide (name = "") then (Raise (oserror ENOENT name), f)
  else
    let cs := os.path.components name in
    match last cs with
    | None => (Raise (oserror EEXIST name), f)
    | Some c =>
        match walk f [] (origin f name ++ removelast cs) with
        | inl e => (Raise (oserror e name), f)
        | inr p =>
            match node_at f p with
            | None => (Raise (oserror ENOENT name), f)
            | Some (File _) => (Raise (oserror ENOTDIR name), f)
            | Some Dir =>
                if bool_decide (c = ".") || bool_decide (c = "..")
                   || bool_decide (is_Some (nodes f !! (p ++ [c])))
                then (Raise (oserror EEXIST name), f)
                else (Ok tt, create (p ++ [c]) f)
            end
        end
    end.

(** [os.mkdir(name)] where an error is let pass when the name is a
    directory (lines 224-230 of [os.py], with [exist_ok=True]):
<<
    try:
        mkdir(name, mode)
    except OSError:
        if not exist_ok or not path.isdir(name):
            raise
>> *)
Definition mkdir_exist_ok (name : string) : action unit := λ f,
  match mkdir name f with
  | (Ok tt, f') => (Ok tt, f')
  | (Raise e, f') => if isdir name f' then (Ok tt, f') else (Raise e, f')
  end.

(** [os.makedirs(name, exist_ok=True)] of the Python library:
<<
    head, tail = path.split(name)
    if not tail:
        head, tail = path.split(head)
    if head and tail and not path.exists(head):
        try:
            makedirs(head, exist_ok=exist_ok)
        except FileExistsError:
            pass
        if tail == curdir:
            return
    try:
        mkdir(name, mode)
    ...
>>
    The recursion is on the head, which is shorter than the name it is
    split from: [depth] bounds how deep it goes, and [makedirs] below gives
    it the length of the name. The recursion limit of the interpreter is
    left out. *)
Fixpoint makedirs_within (depth : nat) (name : string) : action unit := λ f,
  let '(head, tail) := os.path.split name in
  let '(head, tail) :=
    if bool_decide (tail = "") then os.path.split head else (head, tail) in
  if negb (bool_decide (head = "")) && negb (bool_decide (tail = ""))
     && negb (exists_ head f)
  then
    match depth with
    | O => (Raise (LibraryError "RecursionError"), f)
    | S depth' =>
        match makedirs_within depth' head f with
        | (Raise (FileExistsError _), f') | (Ok tt, f') =>
            if bool_decide (tail = ".") then (Ok tt, f')
            else mkdir_exist_ok name f'
        | (Raise e, f') => (Raise e, f')
        end
    end
  else mkdir_exist_ok name f.

Definition makedirs (name : string) : action unit :=
  makedirs_within (String.length name) name.

End posix.

(** *** Vocabulary for the properties of the file system *)

(** The location and every location above it hold a directory. *)
Definition dir_at (f : fs) (d : loc) : Prop :=
  ∀ p, p `prefix_of` d → node_at f p = Some Dir.

(** Every location above [d] holds a directory. *)
Definition above (f : fs) (d : loc) : Prop :=
  ∀ p, p `prefix_of` d → p ≠ d → node_at f p = Some Dir.

(** [f'] is [f] with the directories [ds] made one after the other, each
    of them new and in a directory of the disk. *)
Inductive grows : list loc → fs → fs → Prop :=
| grows_nil f : grows [] f f
| grows_cons d ds f f' :
    d ≠ [] → dir_at f (removelast d) → nodes f !! d = None →
    grows ds (posix.create d f) f' → grows (d :: ds) f f'.

(** Where the first [k] components of a name lead when every one of them
    can be taken. *)
Definition place (f : fs) (name : string) (k : nat) : loc :=
  foldl posix.step []
    (posix.origin f name ++ take k (os.path.components name)).

(** [os.makedirs] begins by taking the last component off the name. *)
Definition split_last (name : string) : string * string :=
  let '(head, tail) := os.path.split name in
  if bool_decide (tail = "") then os.path.split head else (head, tail).

(** A string without a separator, and a name that is one path component:
    not empty, no separator in it, and neither "." nor "..". *)
Fixpoint no_sep (s : string) : bool :=
  match s with
  | EmptyString => true
  | String c s' => negb (bool_decide (c = os.path.sep)) && no_sep s'
  end.

Definition plain (s : string) : bool :=
  no_sep s && negb (bool_decide (s = "")) && negb (bool_decide (s = "."))
  && negb (bool_decide (s = "..")).

(** A string of separators. *)
Fixpoint seps (k : nat) : string :=
  match k with
  | O => ""
  | S k' => String os.path.sep (seps k')
  end.

(** A small disk used in the examples below. *)
Definition disk (files : list (loc * node)) : fs :=
  FS [] (list_to_map files).
(** ** The data loader of [torch.utils.data] *)

Module torch.

(** [k] consecutive batches of [bs] items each. *)
Fixpoint full_batches {A} (k bs : nat) (l : list A) : list (list A) :=
  match k with
  | O => []
  | S k' => take bs l :: full_batches k' bs (drop bs l)
  end.

(** [DataLoader(dataset, shuffle=.., batch_size=.., drop_last=..)] over a
    map-style dataset, given as the list of its items in index order. With
    [shuffle=False] the sampler is sequential; with [shuffle=True] the items
    are visited in the order [permute] draws. The result is the list of
    batches one pass over the loader yields. *)
Definition DataLoader {A} (permute : list A → list A) (dataset : list A)
    (shuffle : bool) (batch_size : Z) (drop_last : bool)
    : outcome (list (list A)) :=
  if bool_decide (batch_size ≤ 0)%Z then
    Raise (ValueError "batch_size should be a positive integer value")
  else
    let bs := Z.to_nat batch_size in
    let order := if shuffle then permute dataset else dataset in
    let k := (length order / bs)%nat in
    let rest := drop (k * bs) order in
    Ok (full_batches k bs order ++
        (if drop_last then []
         else match rest with [] => [] | _ => [rest] end)).

End torch.

(** ** The collaborators of [train] *)

(** What [train] imports from [gpl.toolkit], [beir], [sentence_transformers]
    and the shell. Objects of the collaborators are opaque; constructors
    that load from disk are readers, the operations that write are actions.
    The dataset object stands for the sequence of its examples. *)
Record Toolkit : Type := {
  Loader : Type;
  Corpus : Type;
  Queries : Type;
  Qrels : Type;
  Miner : Type;
  Labeler : Type;
  WordModel : Type;
  PoolModel : Type;
  Model : Type;
  Example_ : Type;
  Loss : Type;
  (* beir.datasets.data_loader *)
  GenericDataLoader : option string → option string → reader Loader;
  Loader_load : Loader → string → reader (Corpus * Queries * Qrels);
  (* gpl.toolkit *)
  resize : option string → string → Z → action unit;
  qgen : string → string → string → Z → Z → string → action unit;
  NegativeMiner : string → string → list string → reader Miner;
  Miner_run : Miner → action unit;
  PseudoLabeler : string → Queries → Corpus → Z → Z → string → reader Labeler;
  Labeler_run : Labeler → action unit;
  GenerativePseudoLabelingDataset :
    string → Queries → Corpus → reader (list Example_);
  MarginDistillationLoss : Model → outcome Loss;
  evaluate : option string → option string → string → Z → string → string →
             action unit;
  (* sentence_transformers *)
  models_Transformer : string → Z → reader WordModel;
  get_word_embedding_dimension : WordModel → outcome Z;
  models_Pooling : Z → string → outcome PoolModel;
  SentenceTransformer : WordModel → PoolModel → outcome Model;
  Model_fit : Model → list (list Example_) → Loss →
              Z → Z → Z → Z → Z → string → string → bool → action unit;
  (* the shell behind os.system, which returns the exit status *)
  os_system : string → fs → Z * fs;
  (* the order a shuffling sampler would draw *)
  sampler_order : list Example_ → list Example_;
}.

(** ** The journal *)

Inductive loglevel : Type := INFO | ERROR.

(** One entry per call [train] makes to a collaborator, with the arguments
    that are plain data. *)
Inductive call {E : Type} : Type :=
| Call_GenericDataLoader (data_folder prefix : option string)
| Call_load (split : string)
| Call_resize (data_path : option string) (output_path : string) (new_size : Z)
| Call_os_system (command : string)
| Call_qgen (data_path output_dir generator : string)
    (ques_per_passage bsz : Z) (prefix : string)
| Call_NegativeMiner (data_path prefix : string) (retrievers : list string)
| Call_Miner_run
| Call_PseudoLabeler (data_path : string) (steps bsz : Z) (cross_encoder : string)
| Call_Labeler_run
| Call_Transformer (model_name : string) (max_seq_length : Z)
| Call_get_word_embedding_dimension
| Call_Pooling (dim : Z) (pooling_mode : string)
| Call_SentenceTransformer
| Call_GenerativePseudoLabelingDataset (fpath : string)
| Call_MarginDistillationLoss
| Call_fit (batches : list (list E)) (epochs steps_per_epoch warmup_steps
    checkpoint_save_steps checkpoint_save_total_limit : Z)
    (output_path checkpoint_path : string) (use_amp : bool)
| Call_evaluate (data_path : option string) (output : option string)
    (ckpt_dir : string) (max_seq_length : Z) (score_function pooling : string).
Arguments call E : clear implicits.

Inductive event {E : Type} : Type :=
| Log (level : loglevel) (msg : string)
| Called (c : call E).
Arguments event E : clear implicits.

(** The calls of a journal, in order. *)
Definition calls {E} (j : list (event E)) : list (call E) :=
  omap (λ ev, match ev with Called c => Some c | Log _ _ => None end) j.

(** ** Worlds and the monad of [train] *)

Record world {E : Type} : Type := World {
  files : fs;
  journal : list (event E);
}.
Arguments world E : clear implicits.
Arguments World {E} files journal.

Definition M (E A : Type) : Type := world E → outcome A * world E.

Definition ret {E A} (a : A) : M E A := λ w, (Ok a, w).

Definition bind {E A B} (m : M E A) (k : A → M E B) : M E B := λ w,
  match m w with
  | (Ok a, w') => k a w'
  | (Raise e, w') => (Raise e, w')
  end.

Definition raise {E A} (e : exn) : M E A := λ w, (Raise e, w).

(** [try: m  except Exception as e: h e] *)
Definition try_except {E A} (m : M E A) (h : exn → M E A) : M E A := λ w,
  match m w with
  | (Ok a, w') => (Ok a, w')
  | (Raise e, w') => h e w'
  end.

Definition emit {E} (ev : event E) : M E unit := λ w,
  (Ok tt, World (files w) (journal w ++ [ev])).

Definition read {E A} (r : reader A) : M E A := λ w, (r (files w), w).

Definition act {E A} (a : action A) : M E A := λ w,
  let '(o, f) := a (files w) in (o, World f (journal w)).

Definition pure {E A} (o : outcome A) : M E A := λ w, (o, w).

Global Instance M_ret {E} : MRet (M E) := λ A, ret.
Global Instance M_bind {E} : MBind (M E) := λ A B k m, bind m k.

(** [assert cond, msg] *)
Definition assert_ {E} (cond : bool) (msg : option string) : M E unit :=
  if cond then ret tt else raise (AssertionError msg).

Definition logger_info {E} (msg : string) : M E unit := emit (Log INFO msg).
Definition logger_error {E} (msg : string) : M E unit := emit (Log ERROR msg).

(** A call to a collaborator: the journal entry, then the collaborator. *)
Definition invoke {E A} (c : call E) (m : M E A) : M E A :=
  emit (Called c);; m.

(** [x in l] on a list of strings. *)
Definition py_in (x : string) (l : list string) : bool := bool_decide (x ∈ l).

(** [str(x)] of a value that may be [None], as an f-string renders it. *)
Definition py_str (x : option string) : string := default "None" x.

(** [os.path.join(a, b)] where [a] may be [None]: posixpath raises
    [TypeError] on a head that is not a path. *)
Definition py_join (a : option string) (b : string) : outcome string :=
  match a with
  | Some a => Ok (os.path.join a b)
  | None =>
      Raise (TypeError "expected str, bytes or os.PathLike object, not NoneType")
  end.

(** ** [train] *)

(** The parameters of [train]. [evaluation_data] and [evaluation_output]
    may be [None] (the code tests the first for it), [new_size] is [None]
    unless a resize is asked for, and [do_evaluation] is used as a truth
    value. *)
Record args : Type := {
  path_to_generated_data : string;
  evaluation_data : option string;
  output_dir : string;
  do_evaluation : bool;
  evaluation_output : option string;
  qgen_prefix : string;
  base_ckpt : string;
  generator : string;
  cross_encoder : string;
  batch_size_gpl : Z;
  batch_size_generation : Z;
  pooling : string;
  max_seq_length : Z;
  new_size : option Z;
  queries_per_passage : Z;
  gpl_steps : Z;
  use_amp : bool;
  retrievers : list string;
}.

(** The checkpoint directory of a run, [os.path.join(output_dir, str(gpl_steps))]. *)
Definition ckpt_dir (a : args) : string :=
  os.path.join (output_dir a) (pretty (gpl_steps a)).

Section train.

Context (tk : Toolkit).

Local Abbreviation E := (Example_ tk).
Local Abbreviation dataset := (Corpus tk * Queries tk * Qrels tk)%type.

(** Lines 39-47: the assertions. *)
Definition assertions (a : args) : M E unit :=
  assert_ (py_in (pooling a) ["mean"; "cls"; "max"]) None;;
  if do_evaluation a then
    assert_ (bool_decide (evaluation_data a ≠ None)) None;;
    try_except
      (invoke (Call_GenericDataLoader (evaluation_data a) None)
         (read (GenericDataLoader tk (evaluation_data a) None));;
       mret tt)
      (λ e,
         logger_error "Cannot load evaluation data for evaluation usage.";;
         raise e)
  else mret tt.

(** Lines 49-59: make sure there is a [corpus.jsonl] under
    [path_to_generated_data]. *)
Definition ensure_corpus (a : args) : M E unit :=
  act (posix.makedirs (path_to_generated_data a));;
  l ← read (posix.listdir (Some (path_to_generated_data a)));
  if negb (py_in "corpus.jsonl" l) then
    logger_info ("Corpus does not exist in " +:+ path_to_generated_data a
      +:+ ". Now clone the one from the evaluation path "
      +:+ py_str (evaluation_data a));;
    l' ← read (posix.listdir (evaluation_data a));
    assert_ (py_in "corpus.jsonl" l')
      (Some ("No corpus found in evaluation path "
         +:+ py_str (evaluation_data a)
         +:+ "! It should be in the BeIR format. For more details, please refer to https://github.com/UKPLab/beir#beers-available-datasets."));;
    match new_size a with
    | Some n =>
        invoke (Call_resize (evaluation_data a) (path_to_generated_data a) n)
          (act (resize tk (evaluation_data a) (path_to_generated_data a) n))
    | None =>
        corpus_path ← pure (py_join (evaluation_data a) "corpus.jsonl");
        let command :=
          "cp " +:+ corpus_path +:+ " " +:+ path_to_generated_data a in
        invoke (Call_os_system command)
          (act (λ f, let '(status, f') := os_system tk command f in
                     (Ok tt, f')))
    end
  else mret tt.

(** [GenericDataLoader(path_to_generated_data, prefix=qgen_prefix).load(split="train")] *)
Definition load_generated (a : args) : M E dataset :=
  loader ← invoke
    (Call_GenericDataLoader (Some (path_to_generated_data a)) (Some (qgen_prefix a)))
    (read (GenericDataLoader tk (Some (path_to_generated_data a))
             (Some (qgen_prefix a))));
  invoke (Call_load "train") (read (Loader_load tk loader "train")).

(** Line 63: the test that the generated queries are there. The second
    listing is only made when the first name was found. *)
Definition has_generated (a : args) : M E bool :=
  l1 ← read (posix.listdir (Some (path_to_generated_data a)));
  if py_in (qgen_prefix a +:+ "-qrels") l1 then
    l2 ← read (posix.listdir (Some (path_to_generated_data a)));
    mret (py_in (qgen_prefix a +:+ "-queries.jsonl") l2)
  else mret false.

(** Lines 61-70: synthetic query generation. *)
Definition generate_queries (a : args) : M E dataset :=
  found ← has_generated a;
  if (found : bool) then
    logger_info "Loading from existing generated data";;
    load_generated a
  else
    logger_info "No generated data found. Now generating it";;
    l ← read (posix.listdir (Some (path_to_generated_data a)));
    assert_ (py_in "corpus.jsonl" l) (Some "At least corpus should exist!");;
    invoke
      (Call_qgen (path_to_generated_data a) (path_to_generated_data a)
         (generator a) (queries_per_passage a) (batch_size_generation a)
         (qgen_prefix a))
      (act (qgen tk (path_to_generated_data a) (path_to_generated_data a)
              (generator a) (queries_per_passage a) (batch_size_generation a)
              (qgen_prefix a)));;
    load_generated a.

(** Lines 72-79: hard-negative mining. *)
Definition mine_negatives (a : args) : M E unit :=
  l ← read (posix.listdir (Some (path_to_generated_data a)));
  if py_in "hard-negatives.jsonl" l then
    logger_info "Using exisiting hard-negative data"
  else
    logger_info "No hard-negative data found. Now mining it";;
    miner ← invoke
      (Call_NegativeMiner (path_to_generated_data a) (qgen_prefix a) (retrievers a))
      (read (NegativeMiner tk (path_to_generated_data a) (qgen_prefix a)
               (retrievers a)));
    invoke Call_Miner_run (act (Miner_run tk miner)).

(** Lines 81-88: pseudo labeling. *)
Definition pseudo_label (a : args) (d : dataset) : M E unit :=
  let '(corpus, gen_queries, gen_qrels) := d in
  l ← read (posix.listdir (Some (path_to_generated_data a)));
  if py_in "gpl-training-data.tsv" l then
    logger_info "Using existing GPL training data"
  else
    logger_info "No GPL training data found. Now generating it via pseudo labeling";;
    pseudo_labeler ← invoke
      (Call_PseudoLabeler (path_to_generated_data a) (gpl_steps a)
         (batch_size_gpl a) (cross_encoder a))
      (read (PseudoLabeler tk (path_to_generated_data a) gen_queries corpus
               (gpl_steps a) (batch_size_gpl a) (cross_encoder a)));
    invoke Call_Labeler_run (act (Labeler_run tk pseudo_labeler)).

(** Line 94: [not os.path.exists(ckpt_dir) or (os.path.exists(ckpt_dir) and
    not os.listdir(ckpt_dir))]. *)
Definition checkpoint_missing (a : args) : M E bool :=
  e1 ← read (λ f, Ok (posix.exists_ (ckpt_dir a) f));
  if negb (e1 : bool) then mret true
  else
    e2 ← read (λ f, Ok (posix.exists_ (ckpt_dir a) f));
    if (e2 : bool) then
      l ← read (posix.listdir (Some (ckpt_dir a)));
      mret (bool_decide (l = []))
    else mret false.

(** Lines 91-120: train the model with the MarginMSE loss. *)
Definition fine_tune (a : args) (d : dataset) : M E unit :=
  let '(corpus, gen_queries, gen_qrels) := d in
  missing ← checkpoint_missing a;
  if (missing : bool) then
    logger_info "Now training GPL on generated data";;
    let model_name := base_ckpt a in
    word_embedding_model ← invoke
      (Call_Transformer model_name (max_seq_length a))
      (read (models_Transformer tk model_name (max_seq_length a)));
    dim ← invoke Call_get_word_embedding_dimension
      (pure (get_word_embedding_dimension tk word_embedding_model));
    pooling_model ← invoke (Call_Pooling dim (pooling a))
      (pure (models_Pooling tk dim (pooling a)));
    model ← invoke Call_SentenceTransformer
      (pure (SentenceTransformer tk word_embedding_model pooling_model));
    let fpath_gpl_data :=
      os.path.join (path_to_generated_data a) "gpl-training-data.tsv" in
    train_dataset ← invoke (Call_GenerativePseudoLabelingDataset fpath_gpl_data)
      (read (GenerativePseudoLabelingDataset tk fpath_gpl_data gen_queries corpus));
    train_dataloader ← pure
      (torch.DataLoader (sampler_order tk) train_dataset false
         (batch_size_gpl a) true);
    train_loss ← invoke Call_MarginDistillationLoss
      (pure (MarginDistillationLoss tk model));
    invoke
      (Call_fit train_dataloader 1 (gpl_steps a) 1000 10000 10000
         (output_dir a) (output_dir a) (use_amp a))
      (act (Model_fit tk model train_dataloader train_loss
              1 (gpl_steps a) 1000 10000 10000
              (output_dir a) (output_dir a) (use_amp a)))
  else
    logger_info "Trained GPL model found. Now skip training".

(** Lines 122-132: evaluate the model if required. *)
Definition evaluation (a : args) : M E unit :=
  if do_evaluation a then
    logger_info "Doing evaluation for GPL";;
    invoke
      (Call_evaluate (evaluation_data a) (evaluation_output a) (ckpt_dir a)
         (max_seq_length a) "dot" (pooling a))
      (act (evaluate tk (evaluation_data a) (evaluation_output a) (ckpt_dir a)
              (max_seq_length a) "dot" (pooling a)))
  else mret tt.

(** The body of [train], top to bottom. *)
Definition train (a : args) : M E unit :=
  assertions a;;
  ensure_corpus a;;
  d ← generate_queries a;
  mine_negatives a;;
  pseudo_label a d;;
  fine_tune a d;;
  evaluation a.

End train.

(** The stages of the pipeline, in the order of the body of [train]. *)
Inductive stage : Type :=
| Assertions
| EnsureCorpus
| GenerateQueries
| MineNegatives
| PseudoLabel
| FineTune
| Evaluation.

Global Instance stage_eq_dec : EqDecision stage.
Proof. solve_decision. Defined.

Definition stage_index (s : stage) : nat :=
  match s with
  | Assertions => 0
  | EnsureCorpus => 1
  | GenerateQueries => 2
  | MineNegatives => 3
  | PseudoLabel => 4
  | FineTune => 5
  | Evaluation => 6
  end.

(** The part of the body of [train] that comes before a stage. *)
Definition before (tk : Toolkit) (a : args) (s : stage) : M (Example_ tk) unit :=
  match s with
  | Assertions => mret tt
  | EnsureCorpus => assertions tk a
  | GenerateQueries => assertions tk a;; ensure_corpus tk a
  | MineNegatives =>
      assertions tk a;; ensure_corpus tk a;; generate_queries tk a;; mret tt
  | PseudoLabel =>
      assertions tk a;; ensure_corpus tk a;;
      generate_queries tk a;; mine_negatives tk a
  | FineTune =>
      assertions tk a;; ensure_corpus tk a;;
      d ← generate_queries tk a;
      mine_negatives tk a;; pseudo_label tk a d
  | Evaluation =>
      assertions tk a;; ensure_corpus tk a;;
      d ← generate_queries tk a;
      mine_negatives tk a;; pseudo_label tk a d;; fine_tune tk a d
  end.

(** ** Artifacts *)

(** The checkpoint directory is there and holds something. *)
Definition checkpoint_ready (a : args) (f : fs) : Prop :=
  ∃ l, posix.listdir (Some (ckpt_dir a)) f = Ok l ∧ l ≠ [].

(** The output artifact of a stage is in place. *)
Definition artifact (a : args) (s : stage) (f : fs) : Prop :=
  match s with
  | Assertions | Evaluation => True
  | EnsureCorpus =>
      is_Some (posix.entry (path_to_generated_data a) "corpus.jsonl" f)
  | GenerateQueries =>
      is_Some (posix.entry (path_to_generated_data a)
                 (qgen_prefix a +:+ "-qrels") f)
      ∧ is_Some (posix.entry (path_to_generated_data a)
                   (qgen_prefix a +:+ "-queries.jsonl") f)
  | MineNegatives =>
      is_Some (posix.entry (path_to_generated_data a) "hard-negatives.jsonl" f)
  | PseudoLabel =>
      is_Some (posix.entry (path_to_generated_data a) "gpl-training-data.tsv" f)
  | FineTune => checkpoint_ready a f
  end.



(** The shell command [train] issues to copy the corpus. *)
Definition copy_command (a : args) (eval_ : string) : string :=
  "cp " +:+ os.path.join eval_ "corpus.jsonl" +:+ " "
  +:+ path_to_generated_data a.

(** Modelled from the spec: the collaborators that write are not part of
    the sources at hand. By sections 4 and 6 of the design document each of
    them persists its own artifact (the corpus, the generated queries, the
    label file, the checkpoint directory, the evaluation output), and mined
    negatives "are never mutated, only consumed" (section 3). This is that
    frame condition for the calls [train] makes with the arguments [a]:
    every collaborator but the miner leaves a [hard-negatives.jsonl] that is
    there as it is. *)
Definition spares_negatives (tk : Toolkit) (a : args) : Prop :=
  let hn := posix.entry (path_to_generated_data a) "hard-negatives.jsonl" in
  (∀ n f,
     is_Some (hn f) →
     hn (resize tk (evaluation_data a) (path_to_generated_data a) n f).2 = hn f)
  ∧ (∀ eval_ f,
       evaluation_data a = Some eval_ → is_Some (hn f) →
       hn (os_system tk (copy_command a eval_) f).2 = hn f)
  ∧ (∀ f,
       is_Some (hn f) →
       hn (qgen tk (path_to_generated_data a) (path_to_generated_data a)
             (generator a) (queries_per_passage a) (batch_size_generation a)
             (qgen_prefix a) f).2 = hn f)
  ∧ (∀ labeler f, is_Some (hn f) → hn (Labeler_run tk labeler f).2 = hn f)
  ∧ (∀ model batches loss f,
       is_Some (hn f) →
       hn (Model_fit tk model batches loss 1 (gpl_steps a) 1000 10000 10000
             (output_dir a) (output_dir a) (use_amp a) f).2 = hn f)
  ∧ (∀ f,
       is_Some (hn f) →
       hn (evaluate tk (evaluation_data a) (evaluation_output a) (ckpt_dir a)
             (max_seq_length a) "dot" (pooling a) f).2 = hn f).


(** ** A reference toolkit for the examples *)

(** Test doubles for the collaborators, used where a statement below is
    evaluated on a concrete run. They write and require the artifacts the
    design document names for each stage and compute nothing else. *)
Module Stub.

Definition newline : ascii := "010"%char.

Fixpoint lines_of (s : string) : list string :=
  match s with
  | EmptyString => [""]
  | String c s' =>
      if bool_decide (c = newline) then "" :: lines_of s'
      else match lines_of s' with
           | w :: ws => String c w :: ws
           | [] => [String c ""]
           end
  end.

Definition rows (s : string) : list string :=
  filter (λ l, l ≠ "") (lines_of s).

Fixpoint unrows (l : list string) : string :=
  match l with
  | [] => ""
  | r :: l' => r +:+ String newline (unrows l')
  end.

(** [open(name, "w").write(content)]: a regular file, new or written over,
    in a directory that is there. *)
Definition write (name content : string) : action unit := λ f,
  if bool_decide (name = "") then (Raise (FileNotFoundError name), f)
  else
    match posix.walk f [] (posix.origin f name ++ os.path.components name) with
    | inl e => (Raise (posix.oserror e name), f)
    | inr p =>
        if os.path.endswith_sep name then
          (Raise (LibraryError "IsADirectoryError"), f)
        else
          match node_at f p with
          | Some Dir => (Raise (LibraryError "IsADirectoryError"), f)
          | _ => (Ok tt, FS (cwd f) (<[p := File content]> (nodes f)))
          end
    end.

(** One action after the other; the second is not run when the first
    raises. *)
Definition seq (x y : action unit) : action unit := λ f,
  match x f with
  | (Ok _, f') => y f'
  | (Raise e, f') => (Raise e, f')
  end.

Definition known_retrievers : list string :=
  ["bm25"; "msmarco-distilbert-base-v3"; "msmarco-MiniLM-L-6-v3"].

(** [cp src dst] for a regular file [src]: into [dst] under the last
    component of [src] when [dst] is a directory, to the file [dst]
    otherwise. A source that is a directory is left out, as [cp] does
    without [-r]. *)
Definition cp_one (src dst : string) (f : fs) : bool * fs :=
  match posix.stat src f with
  | Some (File c) =>
      let target :=
        if posix.isdir dst f then os.path.join dst (os.path.split src).2
        else dst in
      match write target c f with
      | (Ok _, f') => (true, f')
      | (Raise _, f') => (false, f')
      end
  | _ => (false, f)
  end.

Definition cp_into (dst : string) (acc : bool * fs) (src : string) : bool * fs :=
  let '(ok, f) := acc in
  let '(ok', f') := cp_one src dst f in
  (ok && ok', f').

(** The shell, for the one kind of command [train] issues and the wait
    status [os.system] returns for it. The command line is split into words
    at blanks: no word of it is quoted. With more than two operands the
    last has to be a directory; a failed copy exits with 1 (status 256), an
    unknown command with 127. *)
Definition shell (command : string) (f : fs) : Z * fs :=
  match String.words command with
  | "cp" :: operands =>
      match last operands with
      | Some dst =>
          let sources := removelast operands in
          if bool_decide (sources = []) then (256%Z, f)
          else if posix.isdir dst f || bool_decide (length sources = 1) then
            let '(ok, f') := foldl (cp_into dst) (true, f) sources in
            ((if ok then 0 else 256)%Z, f')
          else (256%Z, f)
      | None => (256%Z, f)
      end
  | _ => (32512%Z, f)
  end.

(** What the data loader of BeIR keeps: the folder and the prefix it was
    built with. Building it looks at no file. *)
Definition loader : Type := option string * option string.

(** [GenericDataLoader.load(split)]: the corpus, the queries and the
    relevance judgements of the split have to be there. *)
Definition load (ldr : loader) (split : string) : reader (unit * unit * unit) :=
  λ f,
  let '(folder, prefix) := ldr in
  let p := from_option (λ p, p +:+ "-") "" prefix in
  match folder with
  | None =>
      Raise (TypeError "expected str, bytes or os.PathLike object, not NoneType")
  | Some d =>
      let wanted :=
        [os.path.join d "corpus.jsonl";
         os.path.join d (p +:+ "queries.jsonl");
         os.path.join (os.path.join d (p +:+ "qrels")) (split +:+ ".tsv")] in
      match filter (λ name, posix.exists_ name f = false) wanted with
      | [] => Ok (tt, tt, tt)
      | name :: _ =>
          Raise (ValueError ("File " +:+ name
                   +:+ " not present! Please provide accurate file."))
      end
  end.

(** Modelled from the spec: the toolkit module of the repository
    ([gpl/toolkit]) is not part of the sources at hand. Each double follows
    the artifact contract of sections 4 and 6 of the design document:
    [resize] and the copy bring [corpus.jsonl], [qgen] writes the two
    generated-query artifacts, the miner refuses an unknown retrieval signal
    and otherwise writes [hard-negatives.jsonl], the labeler writes
    [gpl-training-data.tsv], the dataset yields one example per row in row
    order, [fit] leaves a non-empty checkpoint directory for the step
    count, [evaluate] loads the model and the test split of the evaluation
    data and writes its results. The data loader is the one of BeIR: its
    constructor keeps the paths and only [load] looks at the files. *)
Definition toolkit : Toolkit := {|
  Loader := loader;
  Corpus := unit;
  Queries := unit;
  Qrels := unit;
  Miner := string;
  Labeler := string;
  WordModel := unit;
  PoolModel := unit;
  Model := unit;
  Example_ := string;
  Loss := unit;
  GenericDataLoader := λ folder prefix f, Ok (folder, prefix);
  Loader_load := load;
  resize := λ src dst n f,
    match src ≫= (λ s, posix.stat (os.path.join s "corpus.jsonl") f) with
    | Some (File c) =>
        write (os.path.join dst "corpus.jsonl")
          (unrows (take (Z.to_nat n) (rows c))) f
    | _ => (Raise (FileNotFoundError "corpus.jsonl"), f)
    end;
  qgen := λ data_path output generator_ ques bsz prefix f,
    if posix.exists_ (os.path.join data_path "corpus.jsonl") f then
      seq (posix.makedirs (os.path.join output (prefix +:+ "-qrels")))
        (seq (write (os.path.join output (prefix +:+ "-queries.jsonl")) "q1")
           (write (os.path.join (os.path.join output (prefix +:+ "-qrels"))
                     "train.tsv") "q1 p1 1")) f
    else (Raise (FileNotFoundError "corpus.jsonl"), f);
  NegativeMiner := λ data_path prefix names f,
    if forallb (λ r, bool_decide (r ∈ known_retrievers)) names
    then Ok data_path
    else Raise (ValueError "unknown retriever");
  Miner_run := λ data_path,
    write (os.path.join data_path "hard-negatives.jsonl") "q1 p2 p3";
  PseudoLabeler := λ data_path q c steps bsz ce f,
    if posix.exists_ (os.path.join data_path "hard-negatives.jsonl") f
    then Ok data_path
    else Raise (FileNotFoundError "hard-negatives.jsonl");
  Labeler_run := λ data_path,
    write (os.path.join data_path "gpl-training-data.tsv")
      (unrows ["q1 p1 p2 0.7"; "q1 p1 p3 0.4"; "q1 p1 p2 0.7";
               "q1 p1 p3 0.4"; "q1 p1 p2 0.7"]);
  GenerativePseudoLabelingDataset := λ fpath q c f,
    match posix.stat fpath f with
    | Some (File s) => Ok (rows s)
    | _ => Raise (FileNotFoundError fpath)
    end;
  MarginDistillationLoss := λ _, Ok tt;
  evaluate := λ data output ckpt len score pool f,
    if posix.isdir ckpt f then
      match load (data, None) "test" f, output with
      | Ok _, Some o =>
          seq (posix.makedirs o)
            (write (os.path.join o "results.json") "{}") f
      | Ok _, None => (Raise (TypeError "output is None"), f)
      | Raise e, _ => (Raise e, f)
      end
    else (Raise (FileNotFoundError ckpt), f);
  models_Transformer := λ _ _ _, Ok tt;
  get_word_embedding_dimension := λ _, Ok 768%Z;
  models_Pooling := λ _ _, Ok tt;
  SentenceTransformer := λ _ _, Ok tt;
  Model_fit := λ _ batches _ epochs steps warmup save_steps save_limit
                 output ckpt amp,
    let dir := os.path.join ckpt (pretty steps) in
    seq (posix.makedirs dir)
      (write (os.path.join dir "pytorch_model.bin") "weights");
  os_system := shell;
  sampler_order := reverse;
|}.

(** Arguments for the examples: the output path "out", the defaults of
    [train] for the models, and the rest as given. *)
Definition make_args (gen : string) (eval_ : option string) (do_eval : bool)
    (pool : string) (size : option Z) (steps batch : Z)
    (signals : list string) : args := {|
  path_to_generated_data := gen;
  evaluation_data := eval_;
  output_dir := "out";
  do_evaluation := do_eval;
  evaluation_output := Some "results";
  qgen_prefix := "qgen";
  base_ckpt := "distilbert-base-uncased";
  generator := "BeIR/query-gen-msmarco-t5-base-v1";
  cross_encoder := "cross-encoder/ms-marco-MiniLM-L-6-v2";
  batch_size_gpl := batch;
  batch_size_generation := 32;
  pooling := pool;
  max_seq_length := 350;
  new_size := size;
  queries_per_passage := 3;
  gpl_steps := steps;
  use_amp := false;
  retrievers := signals;
|}.

Definition default_retrievers : list string :=
  ["msmarco-distilbert-base-v3"; "msmarco-MiniLM-L-6-v3"].

(** The defaults of [train], with batches of two, over "gen" and "eval". *)
Definition default_args : args :=
  make_args "gen" (Some "eval") false "mean" None 140000 2 default_retrievers.

(** A disk that holds an evaluation dataset with a corpus of three passages
    and nothing else. *)
Definition fresh_disk : fs :=
  disk [(["eval"], Dir);
        (["eval"; "corpus.jsonl"], File (unrows ["P1"; "P2"; "P3"]))].

Definition start (f : fs) : world string := World f [].

(** The disk a complete run over [fresh_disk] leaves, with paths "gen",
    "eval" and "out" and 140000 steps. *)
Definition complete_disk : fs :=
  disk [(["eval"], Dir);
        (["eval"; "corpus.jsonl"], File (unrows ["P1"; "P2"; "P3"]));
        (["gen"], Dir);
        (["gen"; "corpus.jsonl"], File (unrows ["P1"; "P2"; "P3"]));
        (["gen"; "qgen-queries.jsonl"], File "q1");
        (["gen"; "qgen-qrels"], Dir);
        (["gen"; "qgen-qrels"; "train.tsv"], File "q1 p1 1");
        (["gen"; "hard-negatives.jsonl"], File "q1 p2 p3");
        (["gen"; "gpl-training-data.tsv"],
         File (unrows ["q1 p1 p2 0.7"; "q1 p1 p3 0.4"; "q1 p1 p2 0.7";
                       "q1 p1 p3 0.4"; "q1 p1 p2 0.7"]));
        (["out"], Dir);
        (["out"; "140000"], Dir);
        (["out"; "140000"; "pytorch_model.bin"], File "weights")].

(** The same disk with one node replaced or removed. *)
Definition put (p : loc) (n : node) (f : fs) : fs :=
  FS (cwd f) (<[p := n]> (nodes f)).

Definition remove (p : loc) (f : fs) : fs :=
  FS (cwd f) (delete p (nodes f)).

End Stub.

(** ** Observations on a run *)

(** What a computation appended to the journal, and the calls among it. *)
Definition emitted {E A} (m : M E A) (w : world E) : list (event E) :=
  drop (length (journal w)) (journal (m w).2).

Definition called {E A} (m : M E A) (w : world E) : list (call E) :=
  calls (emitted m w).

(** The stage a call belongs to. The data loader is built without a prefix
    only by the assertions. *)
Definition stage_of {E} (c : call E) : stage :=
  match c with
  | Call_GenericDataLoader _ None => Assertions
  | Call_resize _ _ _ | Call_os_system _ => EnsureCorpus
  | Call_GenericDataLoader _ (Some _) | Call_load _
  | Call_qgen _ _ _ _ _ _ => GenerateQueries
  | Call_NegativeMiner _ _ _ | Call_Miner_run => MineNegatives
  | Call_PseudoLabeler _ _ _ _ | Call_Labeler_run => PseudoLabel
  | Call_Transformer _ _ | Call_get_word_embedding_dimension
  | Call_Pooling _ _ | Call_SentenceTransformer
  | Call_GenerativePseudoLabelingDataset _ | Call_MarginDistillationLoss
  | Call_fit _ _ _ _ _ _ _ _ _ => FineTune
  | Call_evaluate _ _ _ _ _ _ => Evaluation
  end.

(** The calls that may write: everything except loading and building
    objects. *)
Definition writes {E} (c : call E) : bool :=
  match c with
  | Call_resize _ _ _ | Call_os_system _ | Call_qgen _ _ _ _ _ _
  | Call_Miner_run | Call_Labeler_run | Call_fit _ _ _ _ _ _ _ _ _
  | Call_evaluate _ _ _ _ _ _ => true
  | _ => false
  end.

(** The calls come stage by stage, in the order of the pipeline. *)
Definition in_order {E} (cs : list (call E)) : Prop :=
  StronglySorted le ((λ c, stage_index (stage_of c)) <$> cs).

(** [m] appends to the journal, and the calls it appends are in order and
    belong to the stages [lo] to [hi]. *)
Definition phased {E A} (lo hi : nat) (m : M E A) : Prop :=
  ∀ w, ∃ j,
    journal (m w).2 = journal w ++ j ∧ in_order (calls j) ∧
    Forall (λ c, lo ≤ stage_index (stage_of c) ≤ hi) (calls j).

(** [m] leaves the observation [obs] of the file system as it found it,
    whether it returns or raises. *)
Definition keeps {E A X} (obs : fs → X) (m : M E A) : Prop :=
  ∀ w, obs (files (m w).2) = obs (files w).

(** [m] leaves the observation as it found it whenever the observation met
    [P] to begin with. *)
Definition keeps_while {E A X} (P : X → Prop) (obs : fs → X) (m : M E A)
    : Prop :=
  ∀ w, P (obs (files w)) → obs (files (m w).2) = obs (files w).





Definition with_new_size (n : option Z) (a : args) : args := {|
  path_to_generated_data := path_to_generated_data a;
  evaluation_data := evaluation_data a;
  output_dir := output_dir a;
  do_evaluation := do_evaluation a;
  evaluation_output := evaluation_output a;
  qgen_prefix := qgen_prefix a;
  base_ckpt := base_ckpt a;
  generator := generator a;
  cross_encoder := cross_encoder a;
  batch_size_gpl := batch_size_gpl a;
  batch_size_generation := batch_size_generation a;
  pooling := pooling a;
  max_seq_length := max_seq_length a;
  new_size := n;
  queries_per_passage := queries_per_passage a;
  gpl_steps := gpl_steps a;
  use_amp := use_amp a;
  retrievers := retrievers a;
|}.
(** * Properties *)

(** ** Examples of the runtime model *)

Example join_plain : os.path.join "out" "140000" = "out/140000".
Proof. reflexivity. Qed.

Example join_trailing_sep : os.path.join "out/" "140000" = "out/140000".
Proof. reflexivity. Qed.

Example join_empty_head : os.path.join "" "corpus.jsonl" = "corpus.jsonl".
Proof. reflexivity. Qed.

Example split_example : os.path.split "data//gen" = ("data", "gen").
Proof. reflexivity. Qed.

Example split_trailing_sep : os.path.split "data/gen/" = ("data/gen", "").
Proof. reflexivity. Qed.

Example lookup_relative :
  posix.lookup
    (FS ["home"; "u"]
       (list_to_map [(["home"], Dir); (["home"; "u"], Dir);
                     (["home"; "u"; "gen"], Dir);
                     (["home"; "u"; "gen"; "x"], Dir)]))
    "gen/./x//y/../z"
  = inl posix.ENOENT.
Proof. vm_compute. reflexivity. Qed.

Example lookup_absolute :
  posix.lookup
    (FS ["home"; "u"] (list_to_map [(["data"], Dir); (["eval"], Dir)]))
    "/data/../eval/x"
  = inr ["eval"; "x"].
Proof. vm_compute. reflexivity. Qed.

Example listdir_example :
  posix.listdir (Some "data/gen")
    (disk [(["data"], Dir); (["data"; "gen"], Dir);
           (["data"; "gen"; "corpus.jsonl"], File "{}");
           (["data"; "eval"], Dir)])
  = Ok ["corpus.jsonl"].
Proof. vm_compute. reflexivity. Qed.

Example listdir_below_file :
  posix.listdir (Some "eval/corpus.jsonl/x")
    (disk [(["eval"], Dir); (["eval"; "corpus.jsonl"], File "{}")])
  = Raise (NotADirectoryError "eval/corpus.jsonl/x").
Proof. vm_compute. reflexivity. Qed.

Example listdir_through_missing :
  posix.listdir (Some "nowhere/../eval") (disk [(["eval"], Dir)])
  = Raise (FileNotFoundError "nowhere/../eval").
Proof. vm_compute. reflexivity. Qed.

Example makedirs_example :
  posix.listdir (Some "data")
    (posix.makedirs "data/gen/" (disk [(["data"], Dir)])).2
  = Ok ["gen"].
Proof. vm_compute. reflexivity. Qed.

Example makedirs_below_file :
  (posix.makedirs "data/gen" (disk [(["data"], File "x")])).1
  = Raise (NotADirectoryError "data/gen").
Proof. vm_compute. reflexivity. Qed.

Example makedirs_through_file :
  posix.makedirs "eval/corpus.jsonl/../../gen"
    (disk [(["eval"], Dir); (["eval"; "corpus.jsonl"], File "{}")])
  = (Raise (NotADirectoryError "eval/corpus.jsonl/.."),
     disk [(["eval"], Dir); (["eval"; "corpus.jsonl"], File "{}")]).
Proof. vm_compute. reflexivity. Qed.

Example makedirs_through_missing :
  (posix.makedirs "a/../b" (disk [])).2 = disk [(["a"], Dir); (["b"], Dir)].
Proof. vm_compute. reflexivity. Qed.

Example DataLoader_example :
  torch.DataLoader (@rev nat) [1; 2; 3; 4; 5]%nat false 2 true
  = Ok [[1; 2]; [3; 4]]%nat.
Proof. reflexivity. Qed.

Example complete_run :
  files (train Stub.toolkit Stub.default_args (Stub.start Stub.fresh_disk)).2
  = Stub.complete_disk.
Proof. vm_compute. reflexivity. Qed.

Example second_run_skips_all :
  train Stub.toolkit Stub.default_args (Stub.start Stub.complete_disk)
  = (Ok tt,
     World Stub.complete_disk
       [Log INFO "Loading from existing generated data";
        Called (Call_GenericDataLoader (Some "gen") (Some "qgen"));
        Called (Call_load "train");
        Log INFO "Using exisiting hard-negative data";
        Log INFO "Using existing GPL training data";
        Log INFO "Trained GPL model found. Now skip training"]).
Proof. vm_compute. reflexivity. Qed.

Example shell_unquoted :
  Stub.shell "cp eval/corpus.jsonl my gen" (posix.makedirs "my gen" Stub.fresh_disk).2
  = (256%Z, (posix.makedirs "my gen" Stub.fresh_disk).2).
Proof. vm_compute. reflexivity. Qed.
(** ** Path names *)

Section paths.

Import os.path.

Lemma string_app_cons c a b : String c a +:+ b = String c (a +:+ b).
Proof. reflexivity. Qed.

Lemma string_app_nil b : "" +:+ b = b.
Proof. reflexivity. Qed.

Lemma string_app_nil_r a : a +:+ "" = a.
Proof. induction a as [|x a IH]; [done|]. by rewrite string_app_cons, IH. Qed.

Lemma string_app_assoc a b c : (a +:+ b) +:+ c = a +:+ (b +:+ c).
Proof.
  induction a as [|x a IH]; [done|].
  by rewrite !string_app_cons, IH.
Qed.

Lemma string_app_length a b :
  String.length (a +:+ b) = String.length a + String.length b.
Proof. induction a as [|x a IH]; [done|]. rewrite string_app_cons. simpl. lia. Qed.

Lemma split_sep_not_nil s : split_sep s ≠ [].
Proof.
  destruct s as [|c s]; simpl; [done|].
  case_bool_decide; [done|]. by destruct (split_sep s).
Qed.

Lemma split_sep_no_sep b : no_sep b = true → split_sep b = [b].
Proof.
  induction b as [|c b IH]; simpl; [done|].
  intros [Hc Hb]%andb_prop. apply negb_true_iff in Hc.
  rewrite Hc, IH; done.
Qed.

(** The pieces on the two sides of a separator. *)
Lemma split_sep_app a b :
  split_sep (a +:+ String sep b) = split_sep a ++ split_sep b.
Proof.
  induction a as [|c a IH]; simpl.
  - done.
  - case_bool_decide; [by rewrite IH|].
    rewrite IH. pose proof (split_sep_not_nil a).
    by destruct (split_sep a).
Qed.

Lemma components_app a b :
  components (a +:+ String sep b) = components a ++ components b.
Proof. unfold components. by rewrite split_sep_app, filter_app. Qed.

Lemma components_no_sep b :
  no_sep b = true → components b = if bool_decide (b = "") then [] else [b].
Proof.
  intros Hb. unfold components. rewrite split_sep_no_sep by done.
  case_bool_decide as Hne.
  - subst. by rewrite filter_cons_False by (by intros ?).
  - by rewrite filter_cons_True.
Qed.

Lemma components_empty : components "" = [].
Proof. by rewrite components_no_sep. Qed.

Lemma components_app_sep a : components (a +:+ String sep "") = components a.
Proof. by rewrite components_app, components_empty, app_nil_r. Qed.

Lemma components_cons_sep s : components (String sep s) = components s.
Proof.
  change (String sep s) with ("" +:+ String sep s).
  by rewrite components_app, components_empty.
Qed.

(** No component is empty or holds a separator. *)
Lemma components_not_empty s c : c ∈ components s → c ≠ "".
Proof. unfold components. by intros [? _]%list_elem_of_filter. Qed.

Lemma plain_no_sep b : plain b = true → no_sep b = true.
Proof. unfold plain. intros H. repeat apply andb_prop in H as [H _]. done. Qed.

Lemma plain_not_empty b : plain b = true → b ≠ "".
Proof.
  unfold plain. intros [[[_ H1]%andb_prop _]%andb_prop _]%andb_prop.
  apply negb_true_iff, bool_decide_eq_false in H1. done.
Qed.

Lemma plain_not_dot b : plain b = true → b ≠ "." ∧ b ≠ "..".
Proof.
  unfold plain. intros [[_ H1]%andb_prop H2]%andb_prop.
  apply negb_true_iff, bool_decide_eq_false in H1, H2. done.
Qed.

Lemma plain_startswith b : plain b = true → startswith_sep b = false.
Proof.
  intros H. pose proof (plain_not_empty _ H). apply plain_no_sep in H.
  destruct b; simpl in *; [done|]. apply andb_prop in H as [H _].
  by apply negb_true_iff in H.
Qed.

Lemma no_sep_endswith b : no_sep b = true → endswith_sep b = false.
Proof.
  induction b as [|c b IH]; simpl; [done|].
  intros [Hc Hb]%andb_prop. apply negb_true_iff in Hc.
  destruct b; [done|]. by apply IH.
Qed.

Lemma components_plain b : plain b = true → components b = [b].
Proof.
  intros H. rewrite components_no_sep by (by apply plain_no_sep).
  by rewrite bool_decide_eq_false_2 by (by apply plain_not_empty).
Qed.

Lemma endswith_sep_inv a :
  endswith_sep a = true → ∃ a', a = a' +:+ String sep "".
Proof.
  induction a as [|c a IH]; simpl; [done|].
  destruct a as [|c' a].
  - intros ->%bool_decide_eq_true. by exists "".
  - intros [a' Ha']%IH. exists (String c a'). simpl. by rewrite Ha'.
Qed.

Lemma endswith_sep_app a b :
  b ≠ "" → endswith_sep (a +:+ b) = endswith_sep b.
Proof.
  intros Hb. induction a as [|c a IH]; [done|].
  rewrite string_app_cons. simpl. rewrite IH.
  destruct (a +:+ b) eqn:Hab; [|done].
  destruct a; [|done]. by rewrite string_app_nil in Hab.
Qed.

Lemma startswith_sep_app a x :
  a ≠ "" → startswith_sep (a +:+ x) = startswith_sep a.
Proof. by destruct a. Qed.

Lemma app_not_empty a x : a ≠ "" → a +:+ x ≠ "".
Proof. by destruct a. Qed.

(** A name without a component is made of separators. *)
Lemma components_nil s : components s = [] → s ≠ "" → startswith_sep s = true.
Proof.
  destruct s as [|c s]; [done|]. intros Hc _. simpl.
  apply bool_decide_eq_true. destruct (decide (c = sep)) as [|Hne]; [done|].
  unfold components in Hc. simpl in Hc.
  rewrite bool_decide_eq_false_2 in Hc by done.
  pose proof (split_sep_not_nil s). destruct (split_sep s); [done|].
  by rewrite filter_cons_True in Hc.
Qed.

(** What [rpartition] returns: the name is the two parts put together, the
    second part has no separator, and the first ends in one unless it is
    empty. *)
Lemma rpartition_spec p h t :
  rpartition p = (h, t) →
  p = h +:+ t ∧ no_sep t = true
  ∧ (h = "" ∨ ∃ h', h = h' +:+ String sep "").
Proof.
  revert h t. induction p as [|c p IH]; intros h t; simpl.
  { intros [= <- <-]. eauto. }
  destruct (rpartition p) as [h0 t0]. destruct (IH _ _ eq_refl) as (-> & Ht & Hh).
  case_bool_decide as Hh0.
  - subst h0. rewrite string_app_nil. case_bool_decide as Hc.
    + intros [= <- <-]. subst c. split_and!; [done..|]. right. by exists "".
    + intros [= <- <-]. split_and!; [done| |by left].
      simpl. rewrite Ht. by rewrite bool_decide_eq_false_2.
  - intros [= <- <-]. split_and!; [done..|]. right.
    destruct Hh as [?|[h' ->]]; [done|]. by exists (String c h').
Qed.

Lemma components_app_seps a k : components (a +:+ seps k) = components a.
Proof.
  revert a. induction k as [|k IH]; intros a; simpl.
  - by rewrite string_app_nil_r.
  - replace (a +:+ String sep (seps k)) with ((a +:+ String sep "") +:+ seps k)
      by (by rewrite string_app_assoc).
    by rewrite IH, components_app_sep.
Qed.

Lemma components_seps k : components (seps k) = [].
Proof.
  rewrite <-(string_app_nil (seps k)), components_app_seps.
  apply components_empty.
Qed.

Lemma rstrip_sep_spec s :
  ∃ k, s = rstrip_sep s +:+ seps k ∧ endswith_sep (rstrip_sep s) = false.
Proof.
  induction s as [|c s (k & Hs & He)]; simpl; [by exists 0|].
  destruct (bool_decide (rstrip_sep s = "")) eqn:Hr; simpl.
  - apply bool_decide_eq_true in Hr. rewrite Hr in Hs, He |- *.
    rewrite string_app_nil in Hs. case_bool_decide as Hc.
    + subst c. exists (S k). simpl. by rewrite <-Hs.
    + exists k. rewrite string_app_cons, string_app_nil, <-Hs.
      split; [done|]. simpl. by rewrite bool_decide_eq_false_2.
  - apply bool_decide_eq_false in Hr. exists k.
    rewrite string_app_cons, <-Hs. split; [done|]. simpl.
    by destruct (rstrip_sep s).
Qed.

Lemma rstrip_sep_components s : components (rstrip_sep s) = components s.
Proof.
  destruct (rstrip_sep_spec s) as (k & Hs & _).
  rewrite Hs at 2. by rewrite components_app_seps.
Qed.

Lemma rstrip_sep_length s : String.length (rstrip_sep s) ≤ String.length s.
Proof.
  destruct (rstrip_sep_spec s) as (k & Hs & _).
  rewrite Hs at 2. rewrite string_app_length. lia.
Qed.

Lemma rstrip_sep_startswith s :
  rstrip_sep s ≠ "" → startswith_sep (rstrip_sep s) = startswith_sep s.
Proof.
  intros Hne. destruct (rstrip_sep_spec s) as (k & Hs & _).
  rewrite Hs at 2. by rewrite startswith_sep_app.
Qed.

Lemma rstrip_sep_empty s : rstrip_sep s = "" → components s = [].
Proof. intros H. by rewrite <-rstrip_sep_components, H. Qed.

(** What [os.path.split] returns. *)
Lemma split_spec p head tail :
  split p = (head, tail) →
  no_sep tail = true
  ∧ components p
    = components head ++ (if bool_decide (tail = "") then [] else [tail])
  ∧ (head = "" → p = tail)
  ∧ (head ≠ "" → startswith_sep head = startswith_sep p)
  ∧ (endswith_sep head = true → components head = [])
  ∧ String.length head + String.length tail ≤ String.length p
  ∧ (tail = "" → p = "" ∨ endswith_sep p = true).
Proof.
  unfold split. destruct (rpartition p) as [h t] eqn:Hp.
  apply rpartition_spec in Hp as (-> & Ht & Hh).
  assert (components (h +:+ t)
          = components h ++ (if bool_decide (t = "") then [] else [t])) as Hc.
  { destruct Hh as [->|[h' ->]].
    - by rewrite string_app_nil, (components_no_sep t).
    - rewrite string_app_assoc, string_app_cons, string_app_nil.
      by rewrite components_app_sep, components_app, (components_no_sep t). }
  assert (t = "" → h +:+ t = "" ∨ endswith_sep (h +:+ t) = true) as Hend.
  { intros ->. rewrite string_app_nil_r.
    destruct Hh as [->|[h' ->]]; [by left|right].
    by rewrite endswith_sep_app. }
  destruct (bool_decide (rstrip_sep h = "")) eqn:Hr; intros [= <- <-].
  - apply bool_decide_eq_true in Hr.
    split_and!; [done|done|by intros ->| |by rewrite rstrip_sep_empty| |done].
    + intros Hne. by rewrite startswith_sep_app.
    + rewrite string_app_length. lia.
  - apply bool_decide_eq_false in Hr.
    split_and!; [done|by rewrite rstrip_sep_components|done| | | |done].
    + intros _. rewrite rstrip_sep_startswith by done.
      rewrite startswith_sep_app; [done|]. by intros ->.
    + destruct (rstrip_sep_spec h) as (k & _ & He). by rewrite He.
    + pose proof (rstrip_sep_length h). rewrite string_app_length. lia.
Qed.

(** What [os.makedirs] splits a name into: the last component, if the name
    has one, and a shorter name for the components before it. *)
Lemma split_last_spec name head tail :
  split_last name = (head, tail) →
  no_sep tail = true
  ∧ components name
    = components head ++ (if bool_decide (tail = "") then [] else [tail])
  ∧ (head = "" → startswith_sep name = false)
  ∧ (head ≠ "" → startswith_sep head = startswith_sep name)
  ∧ (endswith_sep head = true → components head = [])
  ∧ String.length head + String.length tail ≤ String.length name
  ∧ (tail = "" → components name = []).
Proof.
  unfold split_last. destruct (split name) as [h0 t0] eqn:H0.
  apply split_spec in H0 as (Ht0 & Hc0 & He0 & Hs0 & Hend0 & Hlen0 & _).
  destruct (bool_decide (t0 = "")) eqn:Ht.
  - apply bool_decide_eq_true in Ht. subst t0. simpl in Hc0.
    rewrite app_nil_r in Hc0. intros H1.
    apply split_spec in H1 as (Ht1 & Hc1 & He1 & Hs1 & Hend1 & Hlen1 & Hnil1).
    simpl in Hlen0.
    assert (tail = "" → components name = []) as Hnil.
    { intros Htl. rewrite Hc0.
      destruct (Hnil1 Htl) as [->|He]; [apply components_empty|].
      by apply Hend0. }
    destruct (decide (h0 = "")) as [->|Hh0].
    { rewrite (He0 eq_refl) in *. split_and!; done. }
    split_and!; [done|by rewrite Hc0|..|done|lia|done].
    + intros ->. rewrite <-Hs0 by done. rewrite (He1 eq_refl).
      destruct tail as [|c tail]; [done|]. simpl in *.
      apply andb_prop in Ht1 as [Hc _]. by apply negb_true_iff in Hc.
    + intros Hne. by rewrite Hs1, Hs0.
  - apply bool_decide_eq_false in Ht. intros [= <- <-].
    rewrite bool_decide_eq_false_2 by done.
    split_and!; try done.
    intros ->. rewrite (He0 eq_refl).
    destruct t0 as [|c t0]; [done|]. simpl in *.
    apply andb_prop in Ht0 as [Hc _]. by apply negb_true_iff in Hc.
Qed.

(** A plain name joined to a directory name: one more component. *)
Lemma join_plain_spec a b :
  plain b = true →
  join a b ≠ "" ∧ endswith_sep (join a b) = false
  ∧ components (join a b) = components a ++ [b]
  ∧ startswith_sep (join a b) = startswith_sep a.
Proof.
  intros Hb.
  pose proof (plain_not_empty _ Hb) as Hne.
  pose proof (plain_no_sep _ Hb) as Hns.
  destruct (decide (a = "")) as [->|Ha].
  { assert (join "" b = b) as ->
      by (unfold join; by rewrite (plain_startswith _ Hb)).
    rewrite components_empty.
    split_and!; [done|by apply no_sep_endswith|by apply components_plain|].
    by apply plain_startswith. }
  unfold join. rewrite (plain_startswith _ Hb).
  rewrite bool_decide_eq_false_2 by done. simpl.
  destruct (endswith_sep a) eqn:Hend.
  - split_and!.
    + by apply app_not_empty.
    + rewrite endswith_sep_app by done. by apply no_sep_endswith.
    + apply endswith_sep_inv in Hend as [a' ->].
      rewrite string_app_assoc, string_app_cons, string_app_nil.
      by rewrite (components_app a' b), components_app_sep,
        (components_plain b).
    + by apply startswith_sep_app.
  - split_and!.
    + by apply app_not_empty.
    + replace (a +:+ String sep b) with ((a +:+ String sep "") +:+ b)
        by (by rewrite string_app_assoc).
      rewrite endswith_sep_app by done. by apply no_sep_endswith.
    + by rewrite (components_app a b), (components_plain b).
    + by apply startswith_sep_app.
Qed.

End paths.
(** ** Decimal numerals are plain names *)

Section numerals.








End numerals.
(** ** The file system *)

Section file_system.

Import posix.

Lemma child_name_Some d k n : child_name d k = Some n ↔ k = d ++ [n].
Proof.
  unfold child_name. split.
  - destruct (last k) as [n'|]; [|done]. case_decide; naive_solver.
  - intros ->. rewrite last_snoc. by rewrite decide_True.
Qed.

(** The names listed in a directory are the names of the nodes right below
    it. *)
Lemma elem_of_entries f d n :
  n ∈ entries f d ↔ is_Some (nodes f !! (d ++ [n])).
Proof.
  unfold entries. rewrite list_elem_of_omap. split.
  - intros (k & Hk & Hn). apply child_name_Some in Hn as ->.
    apply list_elem_of_fmap in Hk as ([k v] & -> & Hkv).
    apply elem_of_map_to_list in Hkv. by exists v.
  - intros [v Hv]. exists (d ++ [n]). split; [|by apply child_name_Some].
    apply list_elem_of_fmap. exists (d ++ [n], v). split; [done|].
    by apply elem_of_map_to_list.
Qed.

Lemma entries_nil f d : entries f d = [] ↔ ∀ n, nodes f !! (d ++ [n]) = None.
Proof.
  split.
  - intros H n. apply eq_None_not_Some. rewrite <-elem_of_entries, H.
    apply not_elem_of_nil.
  - intros H. apply elem_of_nil_inv. intros n Hn%elem_of_entries.
    rewrite H in Hn. by destruct Hn.
Qed.

Lemma node_at_snoc f d n : node_at f (d ++ [n]) = nodes f !! (d ++ [n]).
Proof. unfold node_at. by destruct d. Qed.

Lemma node_at_cons f d : d ≠ [] → node_at f d = nodes f !! d.
Proof. by destruct d. Qed.

(** *** Locations *)

Lemma removelast_snoc {A} (l : list A) x : removelast (l ++ [x]) = l.
Proof. by rewrite removelast_last. Qed.

Lemma prefix_removelast {A} (l : list A) : removelast l `prefix_of` l.
Proof.
  destruct (decide (l = [])) as [->|Hne]; [done|].
  destruct (exists_last Hne) as (l' & x & ->).
  rewrite removelast_snoc. by apply prefix_app_r.
Qed.

Lemma prefix_snoc_inv {A} (p l : list A) x :
  p `prefix_of` l ++ [x] → p = l ++ [x] ∨ p `prefix_of` l.
Proof.
  intros [k Hk]. destruct (decide (k = [])) as [->|Hne].
  - left. by rewrite app_nil_r in Hk.
  - right. destruct (exists_last Hne) as (k' & y & ->).
    rewrite (assoc_L (++)) in Hk. apply app_inj_tail in Hk as [-> _].
    by exists k'.
Qed.


Lemma snoc_not_prefix {A} (d : list A) n : ¬ (d ++ [n]) `prefix_of` d.
Proof.
  intros H%prefix_length. rewrite length_app in H. simpl in H. lia.
Qed.

Lemma step_plain at_ c : c ≠ "." → c ≠ ".." → step at_ c = at_ ++ [c].
Proof. intros. unfold step. by rewrite !bool_decide_eq_false_2. Qed.

Lemma dir_at_node f d : dir_at f d → node_at f d = Some Dir.
Proof. intros H. by apply H. Qed.

Lemma dir_at_above f d : dir_at f d → above f d.
Proof. intros H p Hp _. by apply H. Qed.

Lemma above_dir_at f d : above f d → node_at f d = Some Dir → dir_at f d.
Proof.
  intros Ha Hd p Hp. destruct (decide (p = d)) as [->|Hne]; [done|].
  by apply Ha.
Qed.

Lemma dir_at_prefix f d p : dir_at f d → p `prefix_of` d → dir_at f p.
Proof. intros H Hp q Hq. apply H. by etrans. Qed.


Lemma above_root f : above f [].
Proof. by intros p ->%prefix_nil_inv. Qed.

Lemma dir_at_snoc f d c :
  dir_at f d → node_at f (d ++ [c]) = Some Dir → dir_at f (d ++ [c]).
Proof.
  intros Hd Hc p [->|Hp]%prefix_snoc_inv; [done|]. by apply Hd.
Qed.

Lemma above_step f d c : dir_at f d → above f (step d c).
Proof.
  intros Hd. unfold step. case_bool_decide; [by apply dir_at_above|].
  case_bool_decide.
  - apply dir_at_above, (dir_at_prefix _ d); [done|apply prefix_removelast].
  - intros p [->|Hp]%prefix_snoc_inv Hne; [done|]. by apply Hd.
Qed.


(** *** Path resolution *)

Lemma walk_app f at_ cs1 cs2 :
  walk f at_ (cs1 ++ cs2)
  = match walk f at_ cs1 with
    | inr d => walk f d cs2
    | inl e => inl e
    end.
Proof.
  revert at_. induction cs1 as [|c cs1 IH]; intros at_; simpl; [done|].
  destruct (node_at f at_) as [[]|]; [done|apply IH|done].
Qed.

Lemma walk_snoc f at_ cs c :
  walk f at_ (cs ++ [c])
  = match walk f at_ cs with
    | inr d =>
        match node_at f d with
        | None => inl ENOENT
        | Some (File _) => inl ENOTDIR
        | Some Dir => inr (step d c)
        end
    | inl e => inl e
    end.
Proof. by rewrite walk_app. Qed.

(** Resolution goes where the components lead. *)
Lemma walk_foldl f cs : ∀ at_ d, walk f at_ cs = inr d → d = foldl step at_ cs.
Proof.
  induction cs as [|c cs IH]; intros at_ d; simpl; [by intros [= <-]|].
  destruct (node_at f at_) as [[]|]; [done|apply IH|done].
Qed.

(** It only goes through directories of the disk. *)
Lemma walk_above f cs : ∀ at_ d,
  above f at_ → walk f at_ cs = inr d → above f d.
Proof.
  induction cs as [|c cs IH]; intros at_ d Ha; simpl; [by intros [= <-]|].
  destruct (node_at f at_) as [[]|] eqn:Hn; [done| |done].
  apply IH, above_step. by apply above_dir_at.
Qed.

Lemma walk_dir_at f cs at_ d :
  above f at_ → walk f at_ cs = inr d → node_at f d = Some Dir → dir_at f d.
Proof. intros Ha Hw Hd. apply above_dir_at; [|done]. by eapply walk_above. Qed.

(** What is a directory on the way of a resolution that went through. *)
Lemma walk_take f cs : ∀ at_ d k,
  walk f at_ cs = inr d → k < length cs →
  walk f at_ (take k cs) = inr (foldl step at_ (take k cs))
  ∧ node_at f (foldl step at_ (take k cs)) = Some Dir.
Proof.
  induction cs as [|c cs IH]; intros at_ d k; simpl; [lia|].
  destruct (node_at f at_) as [[]|] eqn:Hn; [done| |done].
  intros Hw Hk. destruct k as [|k]; simpl; [done|].
  rewrite Hn. apply (IH _ d); [done|lia].
Qed.


(** A disk on which the directories of another are directories resolves
    what the other resolves. *)
Lemma walk_agree f f' cs : ∀ at_ d,
  (∀ q, dir_at f q → node_at f' q = Some Dir) →
  above f at_ → walk f at_ cs = inr d → walk f' at_ cs = inr d.
Proof.
  induction cs as [|c cs IH]; intros at_ d Hd Ha; simpl; [done|].
  destruct (node_at f at_) as [[]|] eqn:Hn; [done| |done].
  assert (dir_at f at_) as Hat by (by apply above_dir_at).
  rewrite (Hd _ Hat). apply IH; [done|]. by apply above_step.
Qed.

Lemma origin_cwd f f' name : cwd f' = cwd f → origin f' name = origin f name.
Proof. unfold origin. by intros ->. Qed.

Lemma lookup_inv f name d :
  lookup f name = inr d →
  name ≠ ""
  ∧ walk f [] (origin f name ++ os.path.components name) = inr d
  ∧ (os.path.endswith_sep name = true → node_at f d = Some Dir).
Proof.
  unfold lookup. case_bool_decide as Hne; [done|].
  destruct (walk f [] _) as [e|d'] eqn:Hw; [done|].
  destruct (os.path.endswith_sep name).
  - destruct (node_at f d') as [[]|] eqn:Hn; [done| |done].
    by intros [= <-].
  - by intros [= <-].
Qed.

Lemma lookup_walk f name d :
  name ≠ "" →
  walk f [] (origin f name ++ os.path.components name) = inr d →
  (os.path.endswith_sep name = true → node_at f d = Some Dir) →
  lookup f name = inr d.
Proof.
  intros Hne Hw Hd. unfold lookup. rewrite bool_decide_eq_false_2, Hw by done.
  destruct (os.path.endswith_sep name); [|done]. by rewrite Hd.
Qed.

Lemma lookup_above f name d : lookup f name = inr d → above f d.
Proof.
  intros (_ & Hw & _)%lookup_inv. eapply walk_above; [|done]. apply above_root.
Qed.

Lemma stat_inv f name n :
  stat name f = Some n → ∃ d, lookup f name = inr d ∧ node_at f d = Some n.
Proof. unfold stat. destruct (lookup f name) as [|d]; [done|]. eauto. Qed.

Lemma stat_lookup f name d : lookup f name = inr d → stat name f = node_at f d.
Proof. unfold stat. by intros ->. Qed.

Lemma stat_dir_at f name d :
  lookup f name = inr d → node_at f d = Some Dir → dir_at f d.
Proof. intros Hl Hd. apply above_dir_at; [|done]. by eapply lookup_above. Qed.

Lemma listdir_dir f s d :
  lookup f s = inr d → node_at f d = Some Dir →
  listdir (Some s) f = Ok (entries f d).
Proof. unfold listdir. simpl. by intros -> ->. Qed.

Lemma listdir_Ok f s l :
  listdir (Some s) f = Ok l →
  ∃ d, lookup f s = inr d ∧ node_at f d = Some Dir ∧ l = entries f d.
Proof.
  unfold listdir. simpl.
  destruct (lookup f s) as [e|d]; [by destruct e|].
  destruct (node_at f d) as [[]|] eqn:?; [done| |done].
  intros [= <-]. eauto.
Qed.

Lemma entry_lookup f s d n :
  lookup f s = inr d → node_at f d = Some Dir →
  entry s n f = nodes f !! (d ++ [n]).
Proof. unfold entry. by intros -> ->. Qed.

Lemma entry_inv f s n v :
  entry s n f = Some v →
  ∃ d, lookup f s = inr d ∧ node_at f d = Some Dir
       ∧ nodes f !! (d ++ [n]) = Some v.
Proof.
  unfold entry. destruct (lookup f s) as [|d]; [done|].
  destruct (node_at f d) as [[]|] eqn:?; [done| |done]. eauto.
Qed.

Lemma entry_stat f s n v : entry s n f = Some v → stat s f = Some Dir.
Proof.
  intros (d & Hd & Hn & _)%entry_inv. by rewrite (stat_lookup _ _ d).
Qed.


(** *** Making a directory *)

Lemma create_cwd d f : cwd (create d f) = cwd f.
Proof. done. Qed.

Lemma create_lookup d f p :
  nodes (create d f) !! p
  = if decide (p = d) then Some Dir
    else if decide (d `prefix_of` p) then None else nodes f !! p.
Proof.
  unfold create. simpl. case_decide as Hp.
  { subst. apply lookup_insert_eq. }
  rewrite lookup_insert_ne by done. case_decide as Hd.
  - apply map_lookup_filter_None. right. intros x _. simpl. tauto.
  - destruct (nodes f !! p) as [x|] eqn:Hx.
    + by apply map_lookup_filter_Some.
    + apply map_lookup_filter_None. by left.
Qed.

Lemma create_other d f p :
  ¬ d `prefix_of` p → nodes (create d f) !! p = nodes f !! p.
Proof.
  intros Hd. rewrite create_lookup, decide_False, decide_False; [done..|].
  by intros ->.
Qed.

Lemma create_same d f : nodes (create d f) !! d = Some Dir.
Proof. by rewrite create_lookup, decide_True. Qed.

Lemma node_at_create_other d f p :
  ¬ d `prefix_of` p → node_at (create d f) p = node_at f p.
Proof. intros Hd. destruct p; [done|]. by apply create_other. Qed.

(** A directory of the disk is not below a place that holds nothing. *)
Lemma dir_at_not_below f d q :
  d ≠ [] → nodes f !! d = None → dir_at f q → ¬ d `prefix_of` q.
Proof.
  intros Hne Hd Hq Hp. specialize (Hq d Hp).
  rewrite node_at_cons, Hd in Hq; done.
Qed.

Lemma above_not_below f d q :
  d ≠ [] → nodes f !! d = None → above f q → is_Some (node_at f q) →
  ¬ d `prefix_of` q.
Proof.
  intros Hne Hd Hq [n Hn] Hp. destruct (decide (d = q)) as [->|Hdq].
  - rewrite node_at_cons, Hd in Hn; done.
  - specialize (Hq d Hp Hdq). rewrite node_at_cons, Hd in Hq; done.
Qed.

Lemma create_dir_at d f q :
  d ≠ [] → nodes f !! d = None → dir_at f q → dir_at (create d f) q.
Proof.
  intros Hne Hd Hq p Hp. rewrite node_at_create_other; [by apply Hq|].
  apply (dir_at_not_below f); [done..|]. by apply (dir_at_prefix _ q).
Qed.


(** *** A disk that grows *)

Lemma grows_one d f :
  d ≠ [] → dir_at f (removelast d) → nodes f !! d = None →
  grows [d] f (create d f).
Proof. intros. apply grows_cons; [done..|constructor]. Qed.

Lemma grows_app ds1 ds2 f f1 f2 :
  grows ds1 f f1 → grows ds2 f1 f2 → grows (ds1 ++ ds2) f f2.
Proof.
  induction 1 as [|d ds f f1 Hne Hp Hd Hg IH]; [done|].
  intros H2. simpl. apply grows_cons; [done..|]. by apply IH.
Qed.

Lemma grows_cwd ds f f' : grows ds f f' → cwd f' = cwd f.
Proof. induction 1 as [|d ds f f1 Hne Hp Hd Hg IH]; [done|]. by rewrite IH. Qed.

Lemma grows_dir_at ds f f' q : grows ds f f' → dir_at f q → dir_at f' q.
Proof.
  induction 1 as [|d ds f f1 Hne Hp Hd Hg IH]; [done|].
  intros Hq. by apply IH, create_dir_at.
Qed.

Lemma grows_above ds f f' q : grows ds f f' → above f q → above f' q.
Proof.
  intros Hg Hq p Hp Hne.
  apply (grows_dir_at _ _ _ p Hg); [|done].
  apply above_dir_at; [|by apply Hq].
  intros p' Hp' Hne'. apply Hq; [by etrans|].
  intros ->. by apply Hne', (anti_symm prefix).
Qed.

(** What was on the disk stays on it. *)
Lemma grows_node ds f f' q n :
  grows ds f f' → above f q → node_at f q = Some n → node_at f' q = Some n.
Proof.
  induction 1 as [|d ds f f1 Hne Hp Hd Hg IH]; [done|].
  intros Hq Hn. apply IH.
  - apply (grows_above [d] f); [by apply grows_one|done].
  - rewrite node_at_create_other; [done|].
    by apply (above_not_below f).
Qed.

Lemma grows_walk ds f f' cs at_ d :
  grows ds f f' → above f at_ → walk f at_ cs = inr d → walk f' at_ cs = inr d.
Proof.
  intros Hg. apply walk_agree. intros q Hq.
  by apply dir_at_node, (grows_dir_at ds f).
Qed.

Lemma grows_lookup ds f f' name d :
  grows ds f f' → lookup f name = inr d → lookup f' name = inr d.
Proof.
  intros Hg (Hne & Hw & Hd)%lookup_inv. apply lookup_walk; [done|..].
  - rewrite (origin_cwd f f') by (by eapply grows_cwd).
    eapply grows_walk; [done|apply above_root|done].
  - intros He. eapply grows_node; [done| |by apply Hd].
    eapply walk_above; [|done]. apply above_root.
Qed.


Lemma grows_entry ds f f' s n v :
  grows ds f f' → entry s n f = Some v → entry s n f' = Some v.
Proof.
  intros Hg (d & Hl & Hd & Hv)%entry_inv.
  assert (dir_at f d) as Hat by (by eapply stat_dir_at).
  rewrite (entry_lookup _ _ d).
  - rewrite <-node_at_snoc. eapply grows_node; [done| |by rewrite node_at_snoc].
    intros p [->|Hp]%prefix_snoc_inv Hne; [done|]. by apply Hat.
  - by eapply grows_lookup.
  - by apply dir_at_node, (grows_dir_at ds f).
Qed.

(** Nothing changes at a place that is not at or below a new directory. *)
Lemma grows_frame ds f f' p :
  grows ds f f' → (∀ d, d ∈ ds → ¬ d `prefix_of` p) →
  nodes f' !! p = nodes f !! p.
Proof.
  induction 1 as [|d ds f f1 Hne Hp Hd Hg IH]; [done|].
  intros Hnot. rewrite IH by (intros; apply Hnot; by right).
  apply create_other, Hnot. by left.
Qed.




(** *** [os.mkdir] *)

Lemma walk_origin f o cs p :
  walk f [] (o ++ cs) = inr p → node_at f p = Some Dir →
  ∃ c0, walk f [] o = inr c0 ∧ dir_at f c0 ∧ walk f c0 cs = inr p.
Proof.
  rewrite walk_app. destruct (walk f [] o) as [|c0] eqn:Ho; [done|].
  intros Hw Hp. exists c0. split_and!; [done| |done].
  apply (walk_dir_at f o []); [apply above_root|done|].
  destruct cs as [|c cs]; simpl in Hw; [by injection Hw as ->|].
  by destruct (node_at f c0) as [[]|].
Qed.

(** What [mkdir] does: it fails and changes nothing, or it makes the
    directory its last component names, in the directory the components
    before it lead to. *)
Lemma mkdir_inv name f r f' :
  mkdir name f = (r, f') →
  (∃ e, r = Raise e ∧ f' = f)
  ∨ (∃ cs c p,
       r = Ok tt ∧ name ≠ "" ∧ os.path.components name = cs ++ [c]
       ∧ walk f [] (origin f name ++ cs) = inr p ∧ node_at f p = Some Dir
       ∧ c ≠ "." ∧ c ≠ ".." ∧ nodes f !! (p ++ [c]) = None
       ∧ f' = create (p ++ [c]) f).
Proof.
  unfold mkdir. case_bool_decide as Hne; [intros [= <- <-]; eauto|].
  destruct (last (os.path.components name)) as [c|] eqn:Hlast;
    [|intros [= <- <-]; eauto].
  apply last_Some in Hlast as [cs Hcs]. rewrite Hcs, removelast_snoc.
  destruct (walk f [] _) as [e|p] eqn:Hw; [intros [= <- <-]; eauto|].
  destruct (node_at f p) as [[]|] eqn:Hp; [intros [= <- <-]; eauto| |
    intros [= <- <-]; eauto].
  destruct (_ || _) eqn:Hc; intros [= <- <-]; [eauto|]. right.
  apply orb_false_iff in Hc as [[H1 H2]%orb_false_iff H3].
  apply bool_decide_eq_false in H1, H2, H3.
  exists cs, c, p. split_and!; try done. by apply eq_None_not_Some.
Qed.

Lemma mkdir_grows name f f' :
  mkdir name f = (Ok tt, f') →
  grows [place f name (length (os.path.components name))] f f'
  ∧ stat name f' = Some Dir.
Proof.
  intros [(e & ? & _)|(cs & c & p & _ & Hne & Hcs & Hw & Hp & Hc1 & Hc2 & Hn
                         & ->)]%mkdir_inv; [done|].
  assert (dir_at f p) as Hat.
  { eapply walk_dir_at; [apply above_root|done..]. }
  assert (place f name (length (os.path.components name)) = p ++ [c]) as ->.
  { unfold place. rewrite firstn_all, Hcs, (assoc_L (++)), foldl_app. simpl.
    rewrite <-(walk_foldl _ _ _ _ Hw). by apply step_plain. }
  assert (grows [p ++ [c]] f (create (p ++ [c]) f)) as Hg.
  { apply grows_one; [by destruct p|by rewrite removelast_snoc|done]. }
  split; [done|].
  assert (lookup (create (p ++ [c]) f) name = inr (p ++ [c])) as Hl.
  { apply lookup_walk; [done| |].
    - rewrite Hcs, (assoc_L (++)), walk_snoc.
      rewrite (origin_cwd f (create (p ++ [c]) f)) by done.
      rewrite (grows_walk _ _ _ _ _ _ Hg (above_root f) Hw).
      rewrite (grows_node _ _ _ _ _ Hg (dir_at_above _ _ Hat) Hp).
      by rewrite step_plain.
    - intros _. rewrite node_at_snoc. apply create_same. }
  rewrite (stat_lookup _ _ _ Hl), node_at_snoc. apply create_same.
Qed.

Lemma mkdir_fails name f e f' : mkdir name f = (Raise e, f') → f' = f.
Proof. by intros [(? & _ & ->)|(? & ? & ? & ? & _)]%mkdir_inv. Qed.

(** A name that is there cannot be made. *)
Lemma mkdir_exists name f :
  is_Some (stat name f) → ∃ e, mkdir name f = (Raise e, f).
Proof.
  intros [n (d & (Hne & Hw & _)%lookup_inv & Hd)%stat_inv].
  destruct (mkdir name f) as [r f'] eqn:Hm.
  pose proof Hm as [(e & -> & ->)|(cs & c & p & _ & _ & Hcs & Hw' & Hp & Hc1
                                   & Hc2 & Hn & _)]%mkdir_inv; [eauto|].
  rewrite Hcs, (assoc_L (++)), walk_snoc, Hw', Hp in Hw.
  rewrite step_plain in Hw by done. injection Hw as <-.
  rewrite node_at_snoc in Hd. congruence.
Qed.

Lemma mkdir_exist_ok_inv name f r f' :
  mkdir_exist_ok name f = (r, f') →
  (f' = f ∧ (r = Ok tt → stat name f = Some Dir))
  ∨ (r = Ok tt ∧ mkdir name f = (Ok tt, f')).
Proof.
  unfold mkdir_exist_ok. destruct (mkdir name f) as [[[]|e] f1] eqn:Hm.
  - intros [= <- <-]. by right.
  - apply mkdir_fails in Hm as ->. unfold isdir. case_bool_decide.
    + intros [= <- <-]. by left.
    + intros [= <- <-]. by left.
Qed.


Lemma mkdir_exist_ok_existing name f :
  stat name f = Some Dir → mkdir_exist_ok name f = (Ok tt, f).
Proof.
  intros Hs. unfold mkdir_exist_ok.
  destruct (mkdir_exists name f) as [e ->]; [by rewrite Hs|].
  unfold isdir. by rewrite bool_decide_eq_true_2.
Qed.

Lemma mkdir_exist_ok_grows name f :
  ∃ ds, grows ds f (mkdir_exist_ok name f).2
        ∧ (ds = []
           ∨ ds = [place f name (length (os.path.components name))]
             ∧ 0 < length (os.path.components name)
             ∧ ∃ c0, walk f [] (origin f name) = inr c0 ∧ dir_at f c0).
Proof.
  destruct (mkdir_exist_ok name f) as [r f'] eqn:Hm.
  pose proof Hm as [[-> _]|[_ H]]%mkdir_exist_ok_inv.
  - exists []. split; [constructor|by left].
  - exists [place f name (length (os.path.components name))].
    destruct (mkdir_grows _ _ _ H) as [Hg _]. split; [done|]. right.
    apply mkdir_inv in H as [(? & ? & _)|(cs & c & p & _ & _ & Hcs & Hw & Hp
                                           & _)]; [done|].
    split_and!; [done|rewrite Hcs, length_app; simpl; lia|].
    destruct (walk_origin _ _ _ _ Hw Hp) as (c0 & ? & ? & _). eauto.
Qed.


(** *** The places on the way of a name *)

Lemma place_cwd f f' name k : cwd f' = cwd f → place f' name k = place f name k.
Proof. intros H. unfold place. by rewrite (origin_cwd f f'). Qed.




Lemma place_head f name head tail k :
  split_last name = (head, tail) → head ≠ "" → tail ≠ "" →
  place f head k
  = place f name (k `min` length (os.path.components head)).
Proof.
  intros (_ & Hc & _ & Hs & _)%split_last_spec Hh Ht.
  rewrite bool_decide_eq_false_2 in Hc by done.
  unfold place, origin. rewrite Hc, (Hs Hh). f_equal. f_equal.
  destruct (decide (k ≤ length (os.path.components head))).
  - rewrite Nat.min_l by done. by rewrite take_app_le.
  - rewrite Nat.min_r, take_app_length by lia. by rewrite take_ge by lia.
Qed.


(** *** [os.makedirs] *)

Lemma makedirs_within_unfold depth name f :
  makedirs_within depth name f
  = let '(head, tail) := split_last name in
    if negb (bool_decide (head = "")) && negb (bool_decide (tail = ""))
       && negb (exists_ head f)
    then
      match depth with
      | O => (Raise (LibraryError "RecursionError"), f)
      | S depth' =>
          match makedirs_within depth' head f with
          | (Raise (FileExistsError _), f') | (Ok tt, f') =>
              if bool_decide (tail = ".") then (Ok tt, f')
              else mkdir_exist_ok name f'
          | (Raise e, f') => (Raise e, f')
          end
      end
    else mkdir_exist_ok name f.
Proof.
  unfold split_last. destruct depth; simpl;
    destruct (os.path.split name) as [h t];
    by destruct (bool_decide (t = "")), (os.path.split h).
Qed.

Lemma exists_root head f :
  os.path.components head = [] → head ≠ "" → exists_ head f = true.
Proof.
  intros Hc Hne. unfold exists_, stat, lookup, origin.
  rewrite (bool_decide_eq_false_2 (head = "")), Hc, (components_nil head)
    by done.
  simpl. by destruct (os.path.endswith_sep head).
Qed.

(** The head of a name that is there is there. *)
Lemma exists_head name head tail f n :
  split_last name = (head, tail) → head ≠ "" → tail ≠ "" →
  stat name f = Some n → stat head f = Some Dir.
Proof.
  intros Hsplit Hh Ht (d & (Hne & Hw & _)%lookup_inv & _)%stat_inv.
  pose proof Hsplit as (_ & Hc & _ & Hs & _)%split_last_spec.
  rewrite bool_decide_eq_false_2 in Hc by done.
  rewrite Hc, (assoc_L (++)), walk_snoc in Hw.
  destruct (walk f [] _) as [|p] eqn:Hp; [done|].
  destruct (node_at f p) as [[]|] eqn:Hn; [done| |done].
  assert (lookup f head = inr p) as Hl.
  { apply lookup_walk; [done| |done]. unfold origin in *. by rewrite (Hs Hh). }
  by rewrite (stat_lookup _ _ _ Hl).
Qed.

(** A directory that is there is left as it is. *)
Lemma makedirs_within_existing depth name f :
  stat name f = Some Dir → makedirs_within depth name f = (Ok tt, f).
Proof.
  intros Hs. rewrite makedirs_within_unfold.
  destruct (split_last name) as [head tail] eqn:Hsplit.
  destruct (decide (head = "")) as [->|Hh].
  { simpl. by apply mkdir_exist_ok_existing. }
  destruct (decide (tail = "")) as [->|Ht].
  { rewrite andb_false_r. simpl. by apply mkdir_exist_ok_existing. }
  unfold exists_. rewrite (exists_head _ _ _ _ _ Hsplit Hh Ht Hs).
  rewrite (bool_decide_eq_true_2 (is_Some _)), andb_false_r by done.
  by apply mkdir_exist_ok_existing.
Qed.

(** The depth of the recursion does not matter once it is the length of the
    name. *)
Lemma makedirs_within_enough n : ∀ m name f,
  String.length name ≤ n → String.length name ≤ m →
  makedirs_within n name f = makedirs_within m name f.
Proof.
  induction n as [|n IH]; intros m name f Hn Hm;
    rewrite !(makedirs_within_unfold _ name);
    destruct (split_last name) as [head tail] eqn:Hsplit;
    pose proof Hsplit as (_ & _ & _ & _ & _ & Hlen & _)%split_last_spec;
    destruct (negb (bool_decide (head = ""))) eqn:Hh; simpl; try done;
    destruct (negb (bool_decide (tail = ""))) eqn:Ht; simpl; try done;
    destruct (negb (exists_ head f)); simpl; try done;
    apply negb_true_iff, bool_decide_eq_false in Ht;
    assert (0 < String.length tail) by (destruct tail; [done|simpl; lia]).
  - lia.
  - destruct m as [|m]; [lia|]. rewrite (IH m) by lia. done.
Qed.

(** What [makedirs] makes is new directories, each at a place on the way
    of the name. *)
Lemma mkdir_exist_ok_places name f f1 ds1 :
  grows ds1 f f1 →
  (ds1 = []
   ∨ (∃ c0, walk f [] (origin f name) = inr c0 ∧ dir_at f c0)
     ∧ ∀ d, d ∈ ds1 → ∃ k, 0 < k ∧ d = place f name k) →
  ∃ ds, grows ds f (mkdir_exist_ok name f1).2
        ∧ (ds = []
           ∨ (∃ c0, walk f [] (origin f name) = inr c0 ∧ dir_at f c0)
             ∧ ∀ d, d ∈ ds → ∃ k, 0 < k ∧ d = place f name k).
Proof.
  intros Hg H1.
  destruct (mkdir_exist_ok_grows name f1)
    as (ds2 & Hg2 & [->|(-> & Hpos & Hc0)]).
  { exists ds1. split; [|done].
    rewrite <-(app_nil_r ds1). by eapply grows_app. }
  exists (ds1 ++ [place f1 name (length (os.path.components name))]).
  split; [by eapply grows_app|]. right.
  rewrite (place_cwd f f1) by (by eapply grows_cwd). split.
  - destruct H1 as [->|[H1 _]]; [|done]. by inversion Hg; subst.
  - intros d [Hd|Hd]%elem_of_app.
    + destruct H1 as [->|[_ H1]]; [by apply elem_of_nil in Hd|by apply H1].
    + apply list_elem_of_singleton in Hd as ->. eauto.
Qed.

Lemma makedirs_within_grows depth : ∀ name f,
  ∃ ds, grows ds f (makedirs_within depth name f).2
        ∧ (ds = []
           ∨ (∃ c0, walk f [] (origin f name) = inr c0 ∧ dir_at f c0)
             ∧ ∀ d, d ∈ ds → ∃ k, 0 < k ∧ d = place f name k).
Proof.
  induction depth as [|depth IH]; intros name f;
    rewrite makedirs_within_unfold;
    destruct (split_last name) as [head tail] eqn:Hsplit;
    (destruct (negb (bool_decide (head = ""))) eqn:Hh; simpl;
     [|by apply (mkdir_exist_ok_places _ _ _ []); [constructor|left]]);
    (destruct (negb (bool_decide (tail = ""))) eqn:Ht; simpl;
     [|by apply (mkdir_exist_ok_places _ _ _ []); [constructor|left]]);
    (destruct (negb (exists_ head f)) eqn:He; simpl;
     [|by apply (mkdir_exist_ok_places _ _ _ []); [constructor|left]]).
  { exists []. split; [constructor|by left]. }
  apply negb_true_iff, bool_decide_eq_false in Hh, Ht.
  apply negb_true_iff in He.
  destruct (IH head f) as (ds1 & Hg1 & H1).
  assert (ds1 = []
          ∨ (∃ c0, walk f [] (origin f name) = inr c0 ∧ dir_at f c0)
            ∧ ∀ d, d ∈ ds1 → ∃ k, 0 < k ∧ d = place f name k) as H1'.
  { destruct H1 as [->|[Hc0 H1]]; [by left|right].
    pose proof Hsplit as (_ & _ & _ & Hs & _)%split_last_spec.
    split; [unfold origin in *; by rewrite <-(Hs Hh)|].
    intros d (k & Hk & ->)%H1.
    exists (k `min` length (os.path.components head)). split.
    - destruct (os.path.components head) eqn:Hc; [|simpl; lia].
      by rewrite exists_root in He.
    - by eapply place_head. }
  destruct (makedirs_within depth head f) as [[[]|e] f1]; simpl in *.
  - case_bool_decide; [by exists ds1|]. by apply (mkdir_exist_ok_places _ _ _ ds1).
  - destruct e; try (by exists ds1).
    case_bool_decide; [by exists ds1|]. by apply (mkdir_exist_ok_places _ _ _ ds1).
Qed.





(** *** What the rest of the development uses *)

Lemma exists_stat s f : exists_ s f = bool_decide (is_Some (stat s f)).
Proof. reflexivity. Qed.

Lemma listdir_stat_dir s f :
  stat s f = Some Dir → ∃ l, listdir (Some s) f = Ok l.
Proof.
  intros (d & Hd & Hn)%stat_inv. exists (entries f d). by apply listdir_dir.
Qed.

Lemma listdir_Ok_stat s f l : listdir (Some s) f = Ok l → stat s f = Some Dir.
Proof. intros (d & Hd & Hn & _)%listdir_Ok. by rewrite (stat_lookup _ _ d). Qed.

Lemma listdir_stat_None s f :
  stat s f = None → ∃ e, listdir (Some s) f = Raise e.
Proof.
  unfold stat, listdir. simpl. destruct (lookup f s) as [e|d]; [eauto|].
  intros ->. eauto.
Qed.

Lemma py_in_entries f d n :
  py_in n (entries f d) = bool_decide (is_Some (nodes f !! (d ++ [n]))).
Proof. unfold py_in. apply bool_decide_ext, elem_of_entries. Qed.

(** In a directory, [name in os.listdir(dir)] tests for the entry. *)
Lemma py_in_listdir f s l n :
  listdir (Some s) f = Ok l →
  py_in n l = bool_decide (is_Some (entry s n f)).
Proof.
  intros (d & Hd & Hn & ->)%listdir_Ok.
  by rewrite py_in_entries, (entry_lookup _ _ d).
Qed.

Lemma py_in_listdir_true f s l n :
  listdir (Some s) f = Ok l → py_in n l = true → is_Some (entry s n f).
Proof.
  intros Hl. rewrite (py_in_listdir _ _ _ _ Hl). apply bool_decide_eq_true_1.
Qed.

Lemma py_in_listdir_false f s l n :
  listdir (Some s) f = Ok l → py_in n l = false → entry s n f = None.
Proof.
  intros Hl. rewrite (py_in_listdir _ _ _ _ Hl).
  intros H%bool_decide_eq_false_1. by apply eq_None_not_Some.
Qed.


(** Where a joined plain name leads: to the entry of that name in what the
    directory name leads to, which has to be a directory. *)
Lemma walk_join f a b :
  plain b = true →
  walk f [] (origin f (os.path.join a b) ++ os.path.components (os.path.join a b))
  = match walk f [] (origin f (os.path.join a b) ++ os.path.components a) with
    | inr q =>
        match node_at f q with
        | None => inl ENOENT
        | Some (File _) => inl ENOTDIR
        | Some Dir => inr (q ++ [b])
        end
    | inl e => inl e
    end.
Proof.
  intros Hb. destruct (join_plain_spec a b Hb) as (_ & _ & -> & _).
  rewrite (assoc_L (++)), walk_snoc.
  destruct (walk f [] _) as [e|q]; [done|].
  destruct (node_at f q) as [[]|]; try done.
  destruct (plain_not_dot _ Hb). by rewrite step_plain.
Qed.





(** *** [os.makedirs] *)

Lemma makedirs_grows name f :
  ∃ ds, grows ds f (makedirs name f).2
        ∧ (ds = []
           ∨ (∃ c0, walk f [] (origin f name) = inr c0 ∧ dir_at f c0)
             ∧ ∀ d, d ∈ ds → ∃ k, 0 < k ∧ d = place f name k).
Proof. apply makedirs_within_grows. Qed.


(** A directory that is there is left as it is. *)
Lemma makedirs_existing name f :
  stat name f = Some Dir → makedirs name f = (Ok tt, f).
Proof. apply makedirs_within_existing. Qed.


Lemma makedirs_entry name f s n v :
  entry s n f = Some v → entry s n (makedirs name f).2 = Some v.
Proof.
  destruct (makedirs_grows name f) as (ds & Hg & _). by eapply grows_entry.
Qed.



End file_system.
(** ** The monad and the journal *)

Section journal.

Context {E : Type}.
Implicit Types w : world E.

Lemma run_bind {A B} (m : M E A) (k : A → M E B) w :
  (m ≫= k) w =
  match m w with
  | (Ok a, w') => k a w'
  | (Raise e, w') => (Raise e, w')
  end.
Proof. reflexivity. Qed.

Lemma run_bind_Ok {A B} (m : M E A) (k : A → M E B) w a w' :
  m w = (Ok a, w') → (m ≫= k) w = k a w'.
Proof. intros H. by rewrite run_bind, H. Qed.

Lemma run_bind_Raise {A B} (m : M E A) (k : A → M E B) w e w' :
  m w = (Raise e, w') → (m ≫= k) w = (Raise e, w').
Proof. intros H. by rewrite run_bind, H. Qed.

Lemma calls_app (j1 j2 : list (event E)) : calls (j1 ++ j2) = calls j1 ++ calls j2.
Proof. apply omap_app. Qed.

Lemma emitted_eq {A} (m : M E A) w j :
  journal (m w).2 = journal w ++ j → emitted m w = j.
Proof. unfold emitted. intros ->. apply drop_app_length. Qed.

Lemma in_order_app (c1 c2 : list (call E)) mid :
  in_order c1 → in_order c2 →
  Forall (λ c, stage_index (stage_of c) ≤ mid) c1 →
  Forall (λ c, mid ≤ stage_index (stage_of c)) c2 →
  in_order (c1 ++ c2).
Proof.
  unfold in_order. intros H1 H2 Hlo Hhi. rewrite fmap_app.
  apply StronglySorted_app_2; [|done..].
  intros x1 x2 (y1 & -> & Hy1)%list_elem_of_fmap (y2 & -> & Hy2)%list_elem_of_fmap.
  rewrite Forall_forall in Hlo, Hhi.
  specialize (Hlo _ Hy1). specialize (Hhi _ Hy2). simpl in *. lia.
Qed.

Lemma phased_weaken {A} lo hi lo' hi' (m : M E A) :
  phased lo hi m → lo' ≤ lo → hi ≤ hi' → phased lo' hi' m.
Proof.
  intros H ?? w. destruct (H w) as (j & Hj & Ho & Hr).
  exists j. split_and!; [done..|].
  eapply Forall_impl; [done|]. simpl. lia.
Qed.

Lemma phased_silent {A} lo hi (m : M E A) :
  (∀ w, journal (m w).2 = journal w) → phased lo hi m.
Proof.
  intros H w. exists []. rewrite H, app_nil_r.
  split_and!; [done|constructor|constructor].
Qed.

Lemma phased_ret {A} lo hi (a : A) : phased lo hi (mret a : M E A).
Proof. by apply phased_silent. Qed.

Lemma phased_raise {A} lo hi e : phased lo hi (raise e : M E A).
Proof. by apply phased_silent. Qed.

Lemma phased_read {A} lo hi (r : reader A) : phased lo hi (read r : M E A).
Proof. by apply phased_silent. Qed.

Lemma phased_pure {A} lo hi (o : outcome A) : phased lo hi (pure o : M E A).
Proof. by apply phased_silent. Qed.

Lemma phased_act {A} lo hi (x : action A) : phased lo hi (act x : M E A).
Proof.
  apply phased_silent. intros w. unfold act. by destruct (x (files w)).
Qed.

Lemma phased_assert lo hi cond msg : phased lo hi (assert_ cond msg : M E unit).
Proof. apply phased_silent. intros w. by destruct cond. Qed.

Lemma phased_log lo hi level msg : phased lo hi (emit (Log level msg) : M E unit).
Proof.
  intros w. exists [Log level msg].
  split_and!; [done|constructor|constructor].
Qed.

Lemma phased_bind {A B} lo mid hi (m : M E A) (k : A → M E B) :
  lo ≤ mid ≤ hi →
  phased lo mid m → (∀ a, phased mid hi (k a)) → phased lo hi (m ≫= k).
Proof.
  intros Hmid Hm Hk w. rewrite run_bind.
  destruct (Hm w) as (j1 & Hj1 & Ho1 & Hr1).
  destruct (m w) as [[a|e] w1]; simpl in *.
  - destruct (Hk a w1) as (j2 & Hj2 & Ho2 & Hr2). exists (j1 ++ j2).
    rewrite Hj2, Hj1, (assoc_L (++)), calls_app. split_and!; [done|..].
    + apply (in_order_app _ _ mid); [done..| |].
      * eapply Forall_impl; [done|]. simpl. lia.
      * eapply Forall_impl; [done|]. simpl. lia.
    + apply Forall_app. split; (eapply Forall_impl; [done|]); simpl; lia.
  - exists j1. split_and!; [done..|].
    eapply Forall_impl; [done|]. simpl. lia.
Qed.

Lemma phased_seq {A B} s (m : M E A) (k : A → M E B) :
  phased s s m → (∀ a, phased s s (k a)) → phased s s (m ≫= k).
Proof. apply phased_bind. lia. Qed.

Lemma phased_invoke {A} s (c : call E) (m : M E A) :
  stage_index (stage_of c) = s → phased s s m → phased s s (invoke c m).
Proof.
  intros Hc Hm. unfold invoke. apply phased_seq; [|done].
  intros w. exists [Called c]. split_and!; [done|..].
  - repeat constructor.
  - repeat constructor; simpl; lia.
Qed.

Lemma phased_try {A} s (m : M E A) (h : exn → M E A) :
  phased s s m → (∀ e, phased s s (h e)) → phased s s (try_except m h).
Proof.
  intros Hm Hh w. unfold try_except.
  destruct (Hm w) as (j1 & Hj1 & Ho1 & Hr1).
  destruct (m w) as [[a|e] w1]; simpl in *; [by exists j1|].
  destruct (Hh e w1) as (j2 & Hj2 & Ho2 & Hr2). exists (j1 ++ j2).
  rewrite Hj2, Hj1, (assoc_L (++)), calls_app. split_and!; [done|..].
  - apply (in_order_app _ _ s); [done..| |];
      (eapply Forall_impl; [done|]); simpl; lia.
  - by apply Forall_app.
Qed.

Lemma phased_emitted {A} lo hi (m : M E A) w :
  phased lo hi m → journal (m w).2 = journal w ++ emitted m w.
Proof.
  intros H. destruct (H w) as (j & Hj & _). by rewrite (emitted_eq _ _ _ Hj).
Qed.

Lemma phased_called {A} lo hi (m : M E A) w :
  phased lo hi m →
  in_order (called m w) ∧
  Forall (λ c, lo ≤ stage_index (stage_of c) ≤ hi) (called m w).
Proof.
  intros H. destruct (H w) as (j & Hj & Ho & Hr).
  unfold called. by rewrite (emitted_eq _ _ _ Hj).
Qed.

(** What a sequence emits is what its parts emit, one after the other. *)
Lemma emitted_bind {A B} lo hi lo' hi' (m : M E A) (k : A → M E B) w :
  phased lo hi m → (∀ a, phased lo' hi' (k a)) →
  emitted (m ≫= k) w =
  emitted m w ++
  match (m w).1 with
  | Ok a => emitted (k a) (m w).2
  | Raise _ => []
  end.
Proof.
  intros Hm Hk. apply emitted_eq. rewrite run_bind.
  pose proof (phased_emitted _ _ m w Hm) as H1.
  destruct (m w) as [[a|e] w1]; simpl in *.
  - rewrite (phased_emitted _ _ (k a) w1 (Hk a)), H1. by rewrite (assoc_L (++)).
  - by rewrite app_nil_r.
Qed.

End journal.

(** ** The calls of each stage *)

Ltac phased_step :=
  first
    [ apply phased_ret | apply phased_raise | apply phased_read
    | apply phased_pure | apply phased_act | apply phased_assert
    | apply phased_log
    | apply phased_invoke; [reflexivity|]
    | apply phased_try; [|intros ?]
    | apply phased_seq; [|intros ?] ].

Ltac phased_case :=
  match goal with
  | |- phased _ _ (if ?b then _ else _) => destruct b
  | |- phased _ _ (match ?x with _ => _ end) => destruct x
  | |- phased _ _ (let '(_, _) := ?x in _) => destruct x
  end.

Ltac phased_auto :=
  unfold logger_info, logger_error; repeat (phased_step || phased_case).

Section stages.

Context (tk : Toolkit).
Local Abbreviation E := (Example_ tk).

Lemma phased_assertions a : phased 0 0 (assertions tk a).
Proof. unfold assertions. phased_auto. Qed.

Lemma phased_ensure_corpus a : phased 1 1 (ensure_corpus tk a).
Proof. unfold ensure_corpus. phased_auto. Qed.

Lemma phased_load_generated a : phased 2 2 (load_generated tk a).
Proof. unfold load_generated. phased_auto. Qed.

Lemma phased_has_generated a : phased 2 2 (has_generated tk a).
Proof. unfold has_generated. phased_auto. Qed.

Lemma phased_generate_queries a : phased 2 2 (generate_queries tk a).
Proof.
  unfold generate_queries.
  apply phased_seq; [apply phased_has_generated|]. intros []; phased_auto.
Qed.

Lemma phased_mine_negatives a : phased 3 3 (mine_negatives tk a).
Proof. unfold mine_negatives. phased_auto. Qed.

Lemma phased_pseudo_label a d : phased 4 4 (pseudo_label tk a d).
Proof. unfold pseudo_label. destruct d as [[??]?]. phased_auto. Qed.

Lemma phased_checkpoint_missing a : phased 5 5 (checkpoint_missing tk a).
Proof. unfold checkpoint_missing. phased_auto. Qed.

Lemma phased_fine_tune a d : phased 5 5 (fine_tune tk a d).
Proof.
  unfold fine_tune. destruct d as [[??]?].
  apply phased_seq; [apply phased_checkpoint_missing|]. intros [].
  - phased_auto.
  - phased_auto.
Qed.

Lemma phased_evaluation a : phased 6 6 (evaluation tk a).
Proof. unfold evaluation. phased_auto. Qed.


End stages.

(** ** How a call of [train] came about *)

Section reach.

Context (tk : Toolkit).
Local Abbreviation E := (Example_ tk).

Lemma called_bind {A B} lo hi lo' hi' (m : M E A) (k : A → M E B) w :
  phased lo hi m → (∀ a, phased lo' hi' (k a)) →
  called (m ≫= k) w =
  called m w ++
  match (m w).1 with
  | Ok a => called (k a) (m w).2
  | Raise _ => []
  end.
Proof.
  intros Hm Hk. unfold called.
  rewrite (emitted_bind _ _ _ _ m k w Hm Hk), calls_app.
  by destruct (m w).1.
Qed.

Lemma called_in_stage {A} s (m : M E A) w c :
  phased s s m → c ∈ called m w → stage_index (stage_of c) = s.
Proof.
  intros H Hc. destruct (phased_called _ _ m w H) as [_ Hr].
  rewrite Forall_forall in Hr. specialize (Hr _ Hc). simpl in Hr. lia.
Qed.

(** The rest of the body of [train] from each stage on. *)
Lemma phased_from_evaluation a : phased 6 6 (evaluation tk a).
Proof. apply phased_evaluation. Qed.

Lemma phased_from_fine_tune a d :
  phased 5 6 (fine_tune tk a d;; evaluation tk a).
Proof.
  apply (phased_bind 5 5 6); [lia|apply phased_fine_tune|intros _].
  eapply phased_weaken; [apply phased_evaluation|lia..].
Qed.

Lemma phased_from_pseudo_label a d :
  phased 4 6 (pseudo_label tk a d;; fine_tune tk a d;; evaluation tk a).
Proof.
  apply (phased_bind 4 4 6); [lia|apply phased_pseudo_label|intros _].
  eapply phased_weaken; [apply phased_from_fine_tune|lia..].
Qed.

Lemma phased_from_mine_negatives a d :
  phased 3 6 (mine_negatives tk a;; pseudo_label tk a d;;
              fine_tune tk a d;; evaluation tk a).
Proof.
  apply (phased_bind 3 3 6); [lia|apply phased_mine_negatives|intros _].
  eapply phased_weaken; [apply phased_from_pseudo_label|lia..].
Qed.

Lemma phased_from_generate_queries a :
  phased 2 6 (d ← generate_queries tk a;
              mine_negatives tk a;; pseudo_label tk a d;;
              fine_tune tk a d;; evaluation tk a).
Proof.
  apply (phased_bind 2 2 6); [lia|apply phased_generate_queries|intros d].
  eapply phased_weaken; [apply phased_from_mine_negatives|lia..].
Qed.

Lemma phased_from_ensure_corpus a :
  phased 1 6 (ensure_corpus tk a;;
              d ← generate_queries tk a;
              mine_negatives tk a;; pseudo_label tk a d;;
              fine_tune tk a d;; evaluation tk a).
Proof.
  apply (phased_bind 1 1 6); [lia|apply phased_ensure_corpus|intros _].
  eapply phased_weaken; [apply phased_from_generate_queries|lia..].
Qed.

(** A call in the journal of [train] was made by one of the stages, and
    every stage before that one had returned normally, each started in the
    world its predecessor left. *)
Lemma called_train_inv a w c :
  c ∈ called (train tk a) w →
  c ∈ called (assertions tk a) w
  ∨ ∃ w1, assertions tk a w = (Ok tt, w1) ∧
    (c ∈ called (ensure_corpus tk a) w1
     ∨ ∃ w2, ensure_corpus tk a w1 = (Ok tt, w2) ∧
       (c ∈ called (generate_queries tk a) w2
        ∨ ∃ d w3, generate_queries tk a w2 = (Ok d, w3) ∧
          (c ∈ called (mine_negatives tk a) w3
           ∨ ∃ w4, mine_negatives tk a w3 = (Ok tt, w4) ∧
             (c ∈ called (pseudo_label tk a d) w4
              ∨ ∃ w5, pseudo_label tk a d w4 = (Ok tt, w5) ∧
                (c ∈ called (fine_tune tk a d) w5
                 ∨ ∃ w6, fine_tune tk a d w5 = (Ok tt, w6) ∧
                   c ∈ called (evaluation tk a) w6))))).
Proof.
  unfold train.
  rewrite (called_bind _ _ _ _ _ _ w (phased_assertions tk a)
             (λ _, phased_from_ensure_corpus a)).
  intros [?|H]%elem_of_app; [by left|right].
  destruct (assertions tk a w) as [[[]|e] w1]; simpl in H; [|by inv H].
  exists w1. split; [done|]. revert H.
  rewrite (called_bind _ _ _ _ _ _ w1 (phased_ensure_corpus tk a)
             (λ _, phased_from_generate_queries a)).
  intros [?|H]%elem_of_app; [by left|right].
  destruct (ensure_corpus tk a w1) as [[[]|e] w2]; simpl in H; [|by inv H].
  exists w2. split; [done|]. revert H.
  rewrite (called_bind _ _ _ _ _ _ w2 (phased_generate_queries tk a)
             (phased_from_mine_negatives a)).
  intros [?|H]%elem_of_app; [by left|right].
  destruct (generate_queries tk a w2) as [[d|e] w3]; simpl in H; [|by inv H].
  exists d, w3. split; [done|]. revert H.
  rewrite (called_bind _ _ _ _ _ _ w3 (phased_mine_negatives tk a)
             (λ _, phased_from_pseudo_label a d)).
  intros [?|H]%elem_of_app; [by left|right].
  destruct (mine_negatives tk a w3) as [[[]|e] w4]; simpl in H; [|by inv H].
  exists w4. split; [done|]. revert H.
  rewrite (called_bind _ _ _ _ _ _ w4 (phased_pseudo_label tk a d)
             (λ _, phased_from_fine_tune a d)).
  intros [?|H]%elem_of_app; [by left|right].
  destruct (pseudo_label tk a d w4) as [[[]|e] w5]; simpl in H; [|by inv H].
  exists w5. split; [done|]. revert H.
  rewrite (called_bind _ _ _ _ _ _ w5 (phased_fine_tune tk a d)
             (λ _, phased_from_evaluation a)).
  intros [?|H]%elem_of_app; [by left|right].
  destruct (fine_tune tk a d w5) as [[[]|e] w6]; simpl in H; [|by inv H].
  exists w6. done.
Qed.

End reach.

(** ** What each stage leaves behind *)

(** Unfolds the monad down to the collaborators. *)
Ltac munfold :=
  cbv [mbind mret M_bind M_ret bind ret read act pure emit invoke assert_
       raise logger_info logger_error try_except].


Section postconditions.

Context (tk : Toolkit).
Local Abbreviation E := (Example_ tk).

(** Loading the generated data only reads. *)
Lemma load_generated_files a w : files (load_generated tk a w).2 = files w.
Proof. unfold load_generated. munfold. repeat case_match; by simplify_eq/=. Qed.

Lemma assertions_files a w : files (assertions tk a w).2 = files w.
Proof. unfold assertions. munfold. repeat case_match; by simplify_eq/=. Qed.






End postconditions.
(** ** Claims *)

Section corpus_gate.

Context (tk : Toolkit).
Local Abbreviation E := (Example_ tk).

(** Line 68: without the corpus, and with the generated queries wanting,
    query generation stops at its assertion, before the generator. *)
Lemma generate_queries_without_corpus a w :
  posix.stat (path_to_generated_data a) (files w) = Some Dir →
  posix.entry (path_to_generated_data a) "corpus.jsonl" (files w) = None →
  ¬ artifact a GenerateQueries (files w) →
  generate_queries tk a w
  = (Raise (AssertionError (Some "At least corpus should exist!")),
     World (files w)
       (journal w ++ [Log INFO "No generated data found. Now generating it"])).
Proof.
  intros Hgen Hcorpus Hnot.
  destruct (listdir_stat_dir _ _ Hgen) as [l Hl].
  pose proof (λ n, py_in_listdir _ _ _ n Hl) as Hin.
  unfold generate_queries, has_generated. rewrite !run_bind. munfold.
  rewrite Hl.
  assert (py_in "corpus.jsonl" l = false) as Hc.
  { rewrite Hin, Hcorpus. apply bool_decide_eq_false_2. by intros []. }
  destruct (py_in (qgen_prefix a +:+ "-qrels") l) eqn:H1; simpl.
  - rewrite Hl. simpl.
    destruct (py_in (qgen_prefix a +:+ "-queries.jsonl") l) eqn:H2; simpl.
    + destruct Hnot. split; by eapply py_in_listdir_true.
    + by rewrite Hl, Hc.
  - by rewrite Hl, Hc.
Qed.

End corpus_gate.



(** *** The gates of the stages *)

Ltac journal_simpl :=
  simpl; rewrite <-?(assoc_L (++)), ?drop_app_length, ?drop_all; simpl.

Section gates.

Context (tk : Toolkit).
Local Abbreviation E := (Example_ tk).

(** What mining calls, by the listing of the directory. *)
Lemma mine_negatives_called a w l :
  posix.listdir (Some (path_to_generated_data a)) (files w) = Ok l →
  called (mine_negatives tk a) w =
  if py_in "hard-negatives.jsonl" l then []
  else Call_NegativeMiner (path_to_generated_data a) (qgen_prefix a)
         (retrievers a)
       :: match NegativeMiner tk (path_to_generated_data a) (qgen_prefix a)
                  (retrievers a) (files w) with
          | Ok _ => [Call_Miner_run]
          | Raise _ => []
          end.
Proof.
  intros Hl. unfold called, emitted, mine_negatives. munfold. rewrite Hl.
  repeat case_match; simplify_eq/=; journal_simpl; congruence.
Qed.

Lemma mine_negatives_skip a w l :
  posix.listdir (Some (path_to_generated_data a)) (files w) = Ok l →
  py_in "hard-negatives.jsonl" l = true →
  mine_negatives tk a w =
  (Ok tt, World (files w)
            (journal w ++ [Log INFO "Using exisiting hard-negative data"])).
Proof. intros Hl Hin. unfold mine_negatives. munfold. by rewrite Hl, Hin. Qed.

(** What labeling calls. *)
Lemma pseudo_label_called a d w l :
  posix.listdir (Some (path_to_generated_data a)) (files w) = Ok l →
  called (pseudo_label tk a d) w =
  if py_in "gpl-training-data.tsv" l then []
  else Call_PseudoLabeler (path_to_generated_data a) (gpl_steps a)
         (batch_size_gpl a) (cross_encoder a)
       :: match PseudoLabeler tk (path_to_generated_data a) d.1.2 d.1.1
                  (gpl_steps a) (batch_size_gpl a) (cross_encoder a)
                  (files w) with
          | Ok _ => [Call_Labeler_run]
          | Raise _ => []
          end.
Proof.
  intros Hl. destruct d as [[c q] r].
  unfold called, emitted, pseudo_label. munfold. rewrite Hl.
  repeat case_match; simplify_eq/=; journal_simpl; congruence.
Qed.

Lemma pseudo_label_skip a d w l :
  posix.listdir (Some (path_to_generated_data a)) (files w) = Ok l →
  py_in "gpl-training-data.tsv" l = true →
  pseudo_label tk a d w =
  (Ok tt, World (files w)
            (journal w ++ [Log INFO "Using existing GPL training data"])).
Proof.
  intros Hl Hin. destruct d as [[c q] r].
  unfold pseudo_label. munfold. by rewrite Hl, Hin.
Qed.

(** What query generation calls: the generator comes first, if at all. *)
Lemma generate_queries_called a w l :
  posix.listdir (Some (path_to_generated_data a)) (files w) = Ok l →
  ∃ loads,
    Forall (λ c, writes c = false) loads ∧
    called (generate_queries tk a) w =
    if py_in (qgen_prefix a +:+ "-qrels") l
       && py_in (qgen_prefix a +:+ "-queries.jsonl") l
    then loads
    else if py_in "corpus.jsonl" l
    then Call_qgen (path_to_generated_data a) (path_to_generated_data a)
           (generator a) (queries_per_passage a) (batch_size_generation a)
           (qgen_prefix a) :: loads
    else [].
Proof.
  intros Hl.
  unfold called, emitted, generate_queries, has_generated, load_generated.
  munfold. rewrite Hl.
  repeat case_match; simplify_eq/=; try congruence; journal_simpl;
    eexists; (split; [|reflexivity]); by repeat constructor.
Qed.

Lemma generate_queries_skip a w l :
  posix.listdir (Some (path_to_generated_data a)) (files w) = Ok l →
  py_in (qgen_prefix a +:+ "-qrels") l = true →
  py_in (qgen_prefix a +:+ "-queries.jsonl") l = true →
  generate_queries tk a w =
  load_generated tk a
    (World (files w)
       (journal w ++ [Log INFO "Loading from existing generated data"])).
Proof.
  intros Hl H1 H2. unfold generate_queries, has_generated.
  rewrite !run_bind. munfold. rewrite Hl, H1. simpl. by rewrite Hl, H2.
Qed.

(** The test before fine-tuning. *)
Lemma checkpoint_missing_run a w :
  checkpoint_missing tk a w =
  (match posix.stat (ckpt_dir a) (files w) with
   | None => Ok true
   | Some _ =>
       match posix.listdir (Some (ckpt_dir a)) (files w) with
       | Ok l => Ok (bool_decide (l = []))
       | Raise e => Raise e
       end
   end, w).
Proof.
  unfold checkpoint_missing. munfold. rewrite exists_stat.
  destruct (posix.stat (ckpt_dir a) (files w)) as [n|] eqn:Hs; simpl; [|done].
  rewrite exists_stat, Hs. simpl.
  by destruct (posix.listdir _ _).
Qed.

Lemma fine_tune_skip a d w l :
  posix.listdir (Some (ckpt_dir a)) (files w) = Ok l → l ≠ [] →
  fine_tune tk a d w =
  (Ok tt, World (files w)
            (journal w ++ [Log INFO "Trained GPL model found. Now skip training"])).
Proof.
  intros Hl Hne. destruct d as [[c q] r]. unfold fine_tune.
  rewrite run_bind, checkpoint_missing_run, Hl.
  rewrite (listdir_Ok_stat _ _ _ Hl).
  by rewrite bool_decide_eq_false_2.
Qed.

(** When the checkpoint is wanting, the model is built first. *)
Lemma fine_tune_run a d w :
  checkpoint_missing tk a w = (Ok true, w) →
  ∃ rest,
    called (fine_tune tk a d) w =
    Call_Transformer (base_ckpt a) (max_seq_length a) :: rest.
Proof.
  intros Hm. destruct d as [[c q] r]. unfold called, emitted, fine_tune.
  rewrite run_bind, Hm. munfold.
  repeat case_match; simplify_eq/=; journal_simpl; by eexists.
Qed.

End gates.

(** C1 (as amended). In a world where the generated-data directory is a
    directory, each stage is skipped exactly when its output artifact
    exists, and only the checkpoint directory is also tested for being
    non-empty: with the corpus there, query generation calls the generator
    exactly when one of the two generated-query artifacts is missing; mining
    builds its miner exactly when [hard-negatives.jsonl] is missing; labeling
    builds its labeler exactly when [gpl-training-data.tsv] is missing; and,
    the checkpoint path not being a regular file, fine-tuning builds its
    model exactly when the checkpoint directory is missing or empty. A stage
    that is skipped makes no call that may write and leaves the file system
    as it was. *)
Theorem C1_skip_iff_artifact_exists (tk : Toolkit) (a : args)
    (d : Corpus tk * Queries tk * Qrels tk) (w : world (Example_ tk))
    (Hgen : posix.stat (path_to_generated_data a) (files w) = Some Dir) :
  (artifact a EnsureCorpus (files w) →
   (Call_qgen (path_to_generated_data a) (path_to_generated_data a)
      (generator a) (queries_per_passage a) (batch_size_generation a)
      (qgen_prefix a) ∈ called (generate_queries tk a) w
    ↔ ¬ artifact a GenerateQueries (files w)))
  ∧ (artifact a GenerateQueries (files w) →
     Forall (λ c, writes c = false) (called (generate_queries tk a) w)
     ∧ files (generate_queries tk a w).2 = files w)
  ∧ (Call_NegativeMiner (path_to_generated_data a) (qgen_prefix a)
       (retrievers a) ∈ called (mine_negatives tk a) w
     ↔ ¬ artifact a MineNegatives (files w))
  ∧ (artifact a MineNegatives (files w) →
     mine_negatives tk a w =
     (Ok tt, World (files w)
               (journal w ++ [Log INFO "Using exisiting hard-negative data"])))
  ∧ (Call_PseudoLabeler (path_to_generated_data a) (gpl_steps a)
       (batch_size_gpl a) (cross_encoder a) ∈ called (pseudo_label tk a d) w
     ↔ ¬ artifact a PseudoLabel (files w))
  ∧ (artifact a PseudoLabel (files w) →
     pseudo_label tk a d w =
     (Ok tt, World (files w)
               (journal w ++ [Log INFO "Using existing GPL training data"])))
  ∧ ((∀ c, posix.stat (ckpt_dir a) (files w) ≠ Some (File c)) →
     (Call_Transformer (base_ckpt a) (max_seq_length a)
        ∈ called (fine_tune tk a d) w
      ↔ ¬ checkpoint_ready a (files w)))
  ∧ (checkpoint_ready a (files w) →
     fine_tune tk a d w =
     (Ok tt, World (files w)
               (journal w ++
                [Log INFO "Trained GPL model found. Now skip training"]))).
Proof.
  destruct (listdir_stat_dir _ _ Hgen) as [l Hl].
  pose proof (λ n, py_in_listdir _ _ _ n Hl) as Hin.
  destruct (generate_queries_called tk a w l Hl) as (loads & Hloads & Hq).
  assert (py_in (qgen_prefix a +:+ "-qrels") l
          && py_in (qgen_prefix a +:+ "-queries.jsonl") l = true
          ↔ artifact a GenerateQueries (files w)) as Hboth.
  { rewrite andb_true_iff, !Hin, !bool_decide_eq_true. done. }
  split_and!.
  - intros Hcorpus.
    assert (py_in "corpus.jsonl" l = true) as Hc.
    { rewrite Hin. by apply bool_decide_eq_true_2. }
    rewrite Hc in Hq. rewrite Hq. destruct (_ && _) eqn:Hb.
    + split; [|intros []; by apply Hboth].
      intros Hx. rewrite Forall_forall in Hloads. by apply Hloads in Hx.
    + split; [|intros; apply elem_of_cons; by left].
      intros _ Ha%Hboth. done.
  - intros Ha. pose proof (proj2 Hboth Ha) as Hb. rewrite Hq, Hb.
    split; [done|]. apply andb_true_iff in Hb as [H1 H2].
    rewrite (generate_queries_skip tk a w l Hl H1 H2).
    by rewrite load_generated_files.
  - rewrite (mine_negatives_called tk a w l Hl), Hin. simpl.
    case_bool_decide as Hx; [split; [by intros ?%elem_of_nil|done]|].
    split; [done|]. intros _. apply elem_of_cons. by left.
  - intros Ha. apply (mine_negatives_skip tk a w l Hl).
    rewrite Hin. by apply bool_decide_eq_true_2.
  - rewrite (pseudo_label_called tk a d w l Hl), Hin. simpl.
    case_bool_decide as Hx; [split; [by intros ?%elem_of_nil|done]|].
    split; [done|]. intros _. apply elem_of_cons. by left.
  - intros Ha. apply (pseudo_label_skip tk a d w l Hl).
    rewrite Hin. by apply bool_decide_eq_true_2.
  - intros Hckpt. pose proof (checkpoint_missing_run tk a w) as Hm.
    destruct (posix.stat (ckpt_dir a) (files w)) as [[c|]|] eqn:Hs.
    + by destruct (Hckpt c).
    + destruct (listdir_stat_dir _ _ Hs) as [l' Hl']. rewrite Hl' in Hm.
      case_bool_decide as Hnil.
      * destruct (fine_tune_run tk a d w Hm) as [rest ->].
        split; [|intros; apply elem_of_cons; by left].
        intros _ (l'' & Hl'' & Hne). congruence.
      * unfold called, emitted.
        rewrite (fine_tune_skip tk a d w l' Hl' Hnil). journal_simpl.
        split; [by intros ?%elem_of_nil|]. intros []. by exists l'.
    + destruct (fine_tune_run tk a d w Hm) as [rest ->].
      split; [|intros; apply elem_of_cons; by left].
      intros _ (l'' & Hl'' & Hne).
      apply listdir_Ok_stat in Hl''. congruence.
  - intros (l' & Hl' & Hne). by apply (fine_tune_skip tk a d w l').
Qed.

(** C1 (counterexample). The claim asks for an artifact that exists and is
    non-empty. On a disk where [hard-negatives.jsonl] exists and is empty,
    and the labels are still to be made, mining is skipped all the same:
    the run goes on to labeling without ever building a miner. *)
Lemma C1_empty_artifact_skips :
  let a := Stub.default_args in
  let f := Stub.remove ["gen"; "gpl-training-data.tsv"]
             (Stub.put ["gen"; "hard-negatives.jsonl"] (File "")
                Stub.complete_disk) in
  posix.entry "gen" "hard-negatives.jsonl" f = Some (File "")
  ∧ mine_negatives Stub.toolkit a (Stub.start f)
    = (Ok tt, World f [Log INFO "Using exisiting hard-negative data"])
  ∧ (train Stub.toolkit a (Stub.start f)).1 = Ok tt
  ∧ called (train Stub.toolkit a) (Stub.start f)
    = [Call_GenericDataLoader (Some "gen") (Some "qgen"); Call_load "train";
       Call_PseudoLabeler "gen" 140000 2 "cross-encoder/ms-marco-MiniLM-L-6-v2";
       Call_Labeler_run].
Proof. split_and!; vm_compute; reflexivity. Qed.

(** C1 (instance). The amended statement on the disk of a complete run:
    the negatives are there and the miner is not built. *)
Lemma C1_skip_iff_artifact_exists_witness :
  let a := Stub.default_args in
  let w := Stub.start Stub.complete_disk in
  posix.stat (path_to_generated_data a) (files w) = Some Dir
  ∧ artifact a MineNegatives (files w)
  ∧ (Call_NegativeMiner (path_to_generated_data a) (qgen_prefix a)
       (retrievers a) ∈ called (mine_negatives Stub.toolkit a) w
     ↔ ¬ artifact a MineNegatives (files w))
  ∧ fine_tune Stub.toolkit a (tt, tt, tt) w
    = (Ok tt, World (files w)
                [Log INFO "Trained GPL model found. Now skip training"]).
Proof.
  intros a w.
  assert (posix.stat (path_to_generated_data a) (files w) = Some Dir) as Hgen
    by (vm_compute; reflexivity).
  destruct (C1_skip_iff_artifact_exists Stub.toolkit a (tt, tt, tt) w Hgen)
    as (_ & _ & Hmine & _ & _ & _ & _ & Htune).
  split_and!; [done|vm_compute; eauto|done|].
  apply Htune. exists ["pytorch_model.bin"]. split; [|done].
  vm_compute. reflexivity.
Defined.
(** *** The corpus check *)

Section corpus_check.

Context (tk : Toolkit).
Local Abbreviation E := (Example_ tk).

Lemma makedirs_then a w (k : unit → M E unit) :
  (posix.makedirs (path_to_generated_data a) (files w)).1 = Ok tt →
  (act (posix.makedirs (path_to_generated_data a)) ≫= k) w
  = k tt (World (posix.makedirs (path_to_generated_data a) (files w)).2
            (journal w)).
Proof.
  intros Hmk. munfold. by destruct (posix.makedirs _ _) as [[[]|?] ?].
Qed.



End corpus_check.



(** *** A directory that already holds its artifacts *)

Section resumed.

Context (tk : Toolkit).
Local Abbreviation E := (Example_ tk).

(** With the corpus in place the first stage does nothing at all. *)
Lemma ensure_corpus_present a w :
  posix.stat (path_to_generated_data a) (files w) = Some Dir →
  artifact a EnsureCorpus (files w) →
  ensure_corpus tk a w = (Ok tt, w).
Proof.
  intros Hgen Hc. unfold ensure_corpus. munfold.
  rewrite (makedirs_existing _ _ Hgen). simpl.
  destruct (listdir_stat_dir _ _ Hgen) as [l Hl]. rewrite Hl.
  rewrite (py_in_listdir _ _ _ _ Hl), bool_decide_eq_true_2 by done.
  by destruct w.
Qed.

Lemma assertions_Ok a w :
  (assertions tk a w).1 = Ok tt →
  ∃ j, assertions tk a w = (Ok tt, World (files w) (journal w ++ j))
       ∧ Forall (λ c, stage_of c = Assertions) (calls j).
Proof.
  destruct w as [f j0]. unfold assertions. munfold.
  repeat case_match; simplify_eq/=; try done; intros _;
    rewrite <-?(assoc_L (++)).
  - eexists. split; [done|]. by repeat constructor.
  - exists []. rewrite app_nil_r. split; [done|constructor].
Qed.

(** With both generated-query artifacts in place and loadable, the second
    stage loads them and changes nothing. *)
Lemma generate_queries_present a w ldr d :
  posix.stat (path_to_generated_data a) (files w) = Some Dir →
  artifact a GenerateQueries (files w) →
  GenericDataLoader tk (Some (path_to_generated_data a))
    (Some (qgen_prefix a)) (files w) = Ok ldr →
  Loader_load tk ldr "train" (files w) = Ok d →
  generate_queries tk a w =
  (Ok d,
   World (files w)
     (journal w ++
      [Log INFO "Loading from existing generated data";
       Called (Call_GenericDataLoader (Some (path_to_generated_data a))
                 (Some (qgen_prefix a)));
       Called (Call_load "train")])).
Proof.
  intros Hgen [H1 H2] Hldr Hd.
  destruct (listdir_stat_dir _ _ Hgen) as [l Hl].
  rewrite (generate_queries_skip tk a w l Hl);
    [|rewrite (py_in_listdir _ _ _ _ Hl); by apply bool_decide_eq_true_2..].
  unfold load_generated. munfold. simpl. rewrite Hldr. simpl. rewrite Hd.
  by rewrite <-!(assoc_L (++)).
Qed.

Lemma mine_negatives_present a w :
  posix.stat (path_to_generated_data a) (files w) = Some Dir →
  artifact a MineNegatives (files w) →
  mine_negatives tk a w =
  (Ok tt, World (files w)
            (journal w ++ [Log INFO "Using exisiting hard-negative data"])).
Proof.
  intros Hgen Hhn. destruct (listdir_stat_dir _ _ Hgen) as [l Hl].
  apply (mine_negatives_skip tk a w l Hl).
  rewrite (py_in_listdir _ _ _ _ Hl). by apply bool_decide_eq_true_2.
Qed.


End resumed.
(** *** What a computation leaves alone *)

Section frame.

Context {E X : Type} (obs : fs → X).

Lemma keeps_ret {A} (a : A) : keeps obs (mret a : M E A).
Proof. done. Qed.

Lemma keeps_raise {A} e : keeps obs (raise e : M E A).
Proof. done. Qed.

Lemma keeps_read {A} (r : reader A) : keeps obs (read r : M E A).
Proof. done. Qed.

Lemma keeps_pure {A} (o : outcome A) : keeps obs (pure o : M E A).
Proof. done. Qed.

Lemma keeps_emit ev : keeps obs (emit ev : M E unit).
Proof. done. Qed.

Lemma keeps_assert cond msg : keeps obs (assert_ cond msg : M E unit).
Proof. intros w. by destruct cond. Qed.

Lemma keeps_act {A} (x : action A) :
  (∀ f, obs (x f).2 = obs f) → keeps obs (act x : M E A).
Proof.
  intros H w. unfold act. specialize (H (files w)).
  by destruct (x (files w)).
Qed.

Lemma keeps_bind {A B} (m : M E A) (k : A → M E B) :
  keeps obs m → (∀ a, keeps obs (k a)) → keeps obs (m ≫= k).
Proof.
  intros Hm Hk w. rewrite run_bind. specialize (Hm w).
  destruct (m w) as [[a|e] w1]; simpl in *; [|done].
  by rewrite Hk.
Qed.

Lemma keeps_invoke {A} (c : call E) (m : M E A) :
  keeps obs m → keeps obs (invoke c m).
Proof. intros H. unfold invoke. apply keeps_bind; [apply keeps_emit|done]. Qed.

Lemma keeps_try {A} (m : M E A) (h : exn → M E A) :
  keeps obs m → (∀ e, keeps obs (h e)) → keeps obs (try_except m h).
Proof.
  intros Hm Hh w. unfold try_except. specialize (Hm w).
  destruct (m w) as [[a|e] w1]; simpl in *; [done|].
  by rewrite Hh.
Qed.

Lemma keeps_keeps_while {A} (P : X → Prop) (m : M E A) :
  keeps obs m → keeps_while P obs m.
Proof. intros H w _. apply H. Qed.

Lemma keeps_while_act {A} (P : X → Prop) (x : action A) :
  (∀ f, P (obs f) → obs (x f).2 = obs f) → keeps_while P obs (act x : M E A).
Proof.
  intros H w Hw. unfold act. specialize (H (files w) Hw).
  by destruct (x (files w)).
Qed.

Lemma keeps_while_bind {A B} (P : X → Prop) (m : M E A) (k : A → M E B) :
  keeps_while P obs m → (∀ a, keeps_while P obs (k a)) →
  keeps_while P obs (m ≫= k).
Proof.
  intros Hm Hk w Hw. rewrite run_bind. specialize (Hm w Hw).
  destruct (m w) as [[a|e] w1]; simpl in *; [|done].
  rewrite <-Hm in Hw. by rewrite (Hk a w1 Hw).
Qed.

Lemma keeps_while_invoke {A} (P : X → Prop) (c : call E) (m : M E A) :
  keeps_while P obs m → keeps_while P obs (invoke c m).
Proof.
  intros H. unfold invoke.
  apply keeps_while_bind; [apply keeps_keeps_while, keeps_emit|done].
Qed.

End frame.

Ltac keeps_step :=
  first
    [ apply keeps_ret | apply keeps_raise | apply keeps_read
    | apply keeps_pure | apply keeps_emit | apply keeps_assert
    | apply keeps_invoke
    | apply keeps_try; [|intros ?]
    | apply keeps_bind; [|intros ?] ].

Ltac keeps_case :=
  match goal with
  | |- keeps _ (if ?b then _ else _) => destruct b
  | |- keeps _ (match ?x with _ => _ end) => destruct x
  | |- keeps _ (let '(_, _) := ?x in _) => destruct x
  end.

(** Solves a frame goal up to the actions, which are left to the caller. *)
Ltac keeps_auto :=
  unfold logger_info, logger_error; repeat (keeps_step || keeps_case).

Ltac keeps_while_step :=
  first
    [ apply keeps_keeps_while;
      first [ apply keeps_ret | apply keeps_raise | apply keeps_read
            | apply keeps_pure | apply keeps_emit | apply keeps_assert ]
    | apply keeps_while_invoke
    | apply keeps_while_bind; [|intros ?] ].

Ltac keeps_while_case :=
  match goal with
  | |- keeps_while _ _ (if ?b then _ else _) => destruct b
  | |- keeps_while _ _ (match ?x with _ => _ end) => destruct x
  | |- keeps_while _ _ (let '(_, _) := ?x in _) => destruct x
  end.

Ltac keeps_while_auto :=
  unfold logger_info, logger_error;
  repeat (keeps_while_step || keeps_while_case).


Section resume.

Context (tk : Toolkit).
Local Abbreviation E := (Example_ tk).

Local Abbreviation negatives a :=
  (posix.entry (path_to_generated_data a) "hard-negatives.jsonl").

Lemma keeps_negatives_assertions a : keeps (negatives a) (assertions tk a).
Proof. intros w. by rewrite assertions_files. Qed.

Lemma keeps_negatives_ensure_corpus a :
  spares_negatives tk a →
  keeps_while is_Some (negatives a) (ensure_corpus tk a).
Proof.
  intros (Hr & Hcp & _). unfold ensure_corpus.
  apply keeps_while_bind.
  { apply keeps_while_act. intros f [v Hv]. rewrite Hv.
    by apply makedirs_entry. }
  intros _. apply keeps_while_bind; [apply keeps_keeps_while, keeps_read|].
  intros l. destruct (negb _); [|apply keeps_keeps_while, keeps_ret].
  apply keeps_while_bind; [apply keeps_keeps_while, keeps_emit|]. intros _.
  apply keeps_while_bind; [apply keeps_keeps_while, keeps_read|]. intros l'.
  apply keeps_while_bind; [apply keeps_keeps_while, keeps_assert|]. intros _.
  destruct (new_size a) as [n|].
  - apply keeps_while_invoke, keeps_while_act, Hr.
  - destruct (evaluation_data a) as [e|] eqn:He.
    + intros w Hw. unfold py_join. munfold. simpl.
      pose proof (Hcp e (files w) eq_refl Hw) as H. unfold copy_command in H.
      by destruct (os_system tk _ (files w)).
    + intros w _. by munfold.
Qed.

Lemma keeps_negatives_generate_queries a :
  spares_negatives tk a →
  keeps_while is_Some (negatives a) (generate_queries tk a).
Proof.
  intros (_ & _ & Hq & _).
  unfold generate_queries, has_generated, load_generated. keeps_while_auto.
  apply keeps_while_act, Hq.
Qed.

(** With the negatives in place mining calls nothing and writes nothing. *)
Lemma mine_negatives_idle a w :
  is_Some (negatives a (files w)) →
  called (mine_negatives tk a) w = []
  ∧ files (mine_negatives tk a w).2 = files w.
Proof.
  intros Hn.
  destruct (posix.listdir (Some (path_to_generated_data a)) (files w))
    as [l|e] eqn:Hl.
  - rewrite (mine_negatives_called tk a w l Hl).
    rewrite (mine_negatives_skip tk a w l Hl);
      rewrite (py_in_listdir _ _ _ _ Hl), bool_decide_eq_true_2; done.
  - unfold called, emitted, mine_negatives. munfold. rewrite Hl.
    by journal_simpl.
Qed.

Lemma keeps_negatives_from_pseudo_label a d :
  spares_negatives tk a →
  keeps_while is_Some (negatives a)
    (pseudo_label tk a d;; fine_tune tk a d;; evaluation tk a : M E unit).
Proof.
  intros (_ & _ & _ & Hl & Hf & He). destruct d as [[c q] r].
  apply keeps_while_bind; [|intros _; apply keeps_while_bind; [|intros _]].
  - unfold pseudo_label. keeps_while_auto. apply keeps_while_act, Hl.
  - unfold fine_tune, checkpoint_missing. keeps_while_auto.
    apply keeps_while_act, Hf.
  - unfold evaluation. keeps_while_auto. apply keeps_while_act, He.
Qed.

Lemma keeps_negatives_train a :
  spares_negatives tk a → keeps_while is_Some (negatives a) (train tk a).
Proof.
  intros Hframe. unfold train.
  apply keeps_while_bind; [|intros _].
  { apply keeps_keeps_while, keeps_negatives_assertions. }
  apply keeps_while_bind; [|intros _].
  { by apply keeps_negatives_ensure_corpus. }
  apply keeps_while_bind; [|intros d].
  { by apply keeps_negatives_generate_queries. }
  apply keeps_while_bind; [|intros _].
  { intros w Hw. by rewrite (proj2 (mine_negatives_idle a w Hw)). }
  by apply keeps_negatives_from_pseudo_label.
Qed.

(** The run after the labels were deleted from a complete directory: the
    first four stages find their artifacts, and the run is what labeling,
    fine-tuning and evaluation make of it. *)
Lemma train_after_labels_deleted a w ldr d :
  (assertions tk a w).1 = Ok tt →
  posix.stat (path_to_generated_data a) (files w) = Some Dir →
  artifact a EnsureCorpus (files w) →
  artifact a GenerateQueries (files w) →
  GenericDataLoader tk (Some (path_to_generated_data a))
    (Some (qgen_prefix a)) (files w) = Ok ldr →
  Loader_load tk ldr "train" (files w) = Ok d →
  artifact a MineNegatives (files w) →
  ∃ j,
    assertions tk a w = (Ok tt, World (files w) (journal w ++ j))
    ∧ train tk a w
      = (pseudo_label tk a d;; fine_tune tk a d;; evaluation tk a)
          (World (files w)
             (journal w ++ j ++
              [Log INFO "Loading from existing generated data";
               Called (Call_GenericDataLoader
                         (Some (path_to_generated_data a))
                         (Some (qgen_prefix a)));
               Called (Call_load "train");
               Log INFO "Using exisiting hard-negative data"])).
Proof.
  intros Hassert Hgen Hcorpus Hqueries Hloader Hload Hnegatives.
  destruct (assertions_Ok tk a w Hassert) as (j & Ha & Hj).
  exists j. split; [done|].
  unfold train. rewrite run_bind, Ha.
  rewrite run_bind, ensure_corpus_present by done.
  rewrite run_bind, (generate_queries_present tk a _ ldr d) by done.
  rewrite run_bind, mine_negatives_present by done.
  simpl. by rewrite <-!(assoc_L (++)).
Qed.

(** Labeling with the labels wanting: the labeler is built, and run on the
    files as they are. *)
Lemma pseudo_label_run a d w l labeler :
  posix.listdir (Some (path_to_generated_data a)) (files w) = Ok l →
  py_in "gpl-training-data.tsv" l = false →
  PseudoLabeler tk (path_to_generated_data a) d.1.2 d.1.1 (gpl_steps a)
    (batch_size_gpl a) (cross_encoder a) (files w) = Ok labeler →
  pseudo_label tk a d w
  = ((Labeler_run tk labeler (files w)).1,
     World (Labeler_run tk labeler (files w)).2
       (journal w ++
        [Log INFO "No GPL training data found. Now generating it via pseudo labeling";
         Called (Call_PseudoLabeler (path_to_generated_data a) (gpl_steps a)
                   (batch_size_gpl a) (cross_encoder a));
         Called Call_Labeler_run])).
Proof.
  intros Hl Hin Hlab. destruct d as [[c q] r]. simpl in Hlab.
  unfold pseudo_label. munfold. rewrite Hl, Hin. simpl. rewrite Hlab.
  destruct (Labeler_run tk labeler (files w)) as [[[]|e] f']; simpl;
    by rewrite <-!(assoc_L (++)).
Qed.

Lemma called_after_labels_deleted a w ldr d :
  (assertions tk a w).1 = Ok tt →
  posix.stat (path_to_generated_data a) (files w) = Some Dir →
  artifact a EnsureCorpus (files w) →
  artifact a GenerateQueries (files w) →
  GenericDataLoader tk (Some (path_to_generated_data a))
    (Some (qgen_prefix a)) (files w) = Ok ldr →
  Loader_load tk ldr "train" (files w) = Ok d →
  artifact a MineNegatives (files w) →
  posix.entry (path_to_generated_data a) "gpl-training-data.tsv" (files w)
  = None →
  Call_PseudoLabeler (path_to_generated_data a) (gpl_steps a)
    (batch_size_gpl a) (cross_encoder a) ∈ called (train tk a) w.
Proof.
  intros Hassert Hgen Hcorpus Hqueries Hloader Hload Hnegatives Hlabels.
  destruct (train_after_labels_deleted a w ldr d) as (j & Ha & Htrain);
    [done..|].
  set (w3 := World (files w) _) in Htrain.
  pose proof (phased_emitted 4 6 _ w3 (phased_from_pseudo_label tk a d)) as Hj3.
  assert (called (train tk a) w
          = calls j ++
            [Call_GenericDataLoader (Some (path_to_generated_data a))
               (Some (qgen_prefix a)); Call_load "train"] ++
            called (pseudo_label tk a d;; fine_tune tk a d;; evaluation tk a) w3)
    as Hcalled.
  { unfold called at 1. unfold emitted. rewrite Htrain, Hj3. unfold w3 at 2.
    simpl. rewrite <-!(assoc_L (++)), drop_app_length, !calls_app. done. }
  destruct (listdir_stat_dir _ _ Hgen) as [l Hl].
  rewrite Hcalled, !elem_of_app. right. right.
  rewrite (called_bind tk 4 4 5 6 _ _ w3 (phased_pseudo_label tk a d)
             (λ _, phased_from_fine_tune tk a d)).
  apply elem_of_app. left.
  rewrite (pseudo_label_called tk a d w3 l Hl).
  rewrite (py_in_listdir _ _ _ _ Hl). simpl. rewrite Hlabels.
  rewrite bool_decide_eq_false_2 by (by intros []).
  apply elem_of_cons. by left.
Qed.

(** The same run, with a labeler that gets built: it is run on the files as
    the run found them, and the run goes on from what it leaves. *)
Lemma labeler_run_after_labels_deleted a w ldr d labeler :
  (assertions tk a w).1 = Ok tt →
  posix.stat (path_to_generated_data a) (files w) = Some Dir →
  artifact a EnsureCorpus (files w) →
  artifact a GenerateQueries (files w) →
  GenericDataLoader tk (Some (path_to_generated_data a))
    (Some (qgen_prefix a)) (files w) = Ok ldr →
  Loader_load tk ldr "train" (files w) = Ok d →
  artifact a MineNegatives (files w) →
  posix.entry (path_to_generated_data a) "gpl-training-data.tsv" (files w)
  = None →
  PseudoLabeler tk (path_to_generated_data a) d.1.2 d.1.1 (gpl_steps a)
    (batch_size_gpl a) (cross_encoder a) (files w) = Ok labeler →
  ∃ j,
    assertions tk a w = (Ok tt, World (files w) (journal w ++ j))
    ∧ train tk a w
      = let w5 :=
          World (Labeler_run tk labeler (files w)).2
            (journal w ++ j ++
             [Log INFO "Loading from existing generated data";
              Called (Call_GenericDataLoader
                        (Some (path_to_generated_data a))
                        (Some (qgen_prefix a)));
              Called (Call_load "train");
              Log INFO "Using exisiting hard-negative data";
              Log INFO "No GPL training data found. Now generating it via pseudo labeling";
              Called (Call_PseudoLabeler (path_to_generated_data a)
                        (gpl_steps a) (batch_size_gpl a) (cross_encoder a));
              Called Call_Labeler_run]) in
        match (Labeler_run tk labeler (files w)).1 with
        | Ok _ => (fine_tune tk a d;; evaluation tk a) w5
        | Raise e => (Raise e, w5)
        end.
Proof.
  intros Hassert Hgen Hcorpus Hqueries Hloader Hload Hnegatives Hlabels Hlab.
  destruct (train_after_labels_deleted a w ldr d) as (j & Ha & Htrain);
    [done..|].
  exists j. split; [done|]. rewrite Htrain.
  destruct (listdir_stat_dir _ _ Hgen) as [l Hl].
  rewrite run_bind, (pseudo_label_run a d _ l labeler); [|done| |done].
  - simpl. rewrite <-!(assoc_L (++)). simpl.
    by destruct (Labeler_run tk labeler (files w)).1 as [[]|e].
  - rewrite (py_in_listdir _ _ _ _ Hl). simpl. rewrite Hlabels.
    apply bool_decide_eq_false_2. by intros [].
Qed.

End resume.

(** C3. On a working directory that holds [hard-negatives.jsonl], with
    collaborators that leave the mined negatives alone, a run of [train]
    makes no call of the mining stage and ends with [hard-negatives.jsonl]
    as it was. If moreover [gpl-training-data.tsv] is not there while the
    corpus and the generated queries are (the labels were deleted after a
    complete run, so the assertions pass and the generated data loads), the
    run executes the labeling stage again: it builds the pseudo labeler,
    and the labeler that gets built is run on the files as the run found
    them; the run goes on to fine-tuning from what the labeler leaves, or
    raises what the labeler raised. *)
Theorem C3_rerun_after_labels_deleted (tk : Toolkit) (a : args)
    (w : world (Example_ tk))
    (Hnegatives : artifact a MineNegatives (files w))
    (Hframe : spares_negatives tk a) :
  (∀ c, c ∈ called (train tk a) w → stage_of c ≠ MineNegatives)
  ∧ posix.entry (path_to_generated_data a) "hard-negatives.jsonl"
      (files (train tk a w).2)
    = posix.entry (path_to_generated_data a) "hard-negatives.jsonl" (files w)
  ∧ (∀ (ldr : Loader tk) (d : Corpus tk * Queries tk * Qrels tk),
       (assertions tk a w).1 = Ok tt →
       posix.stat (path_to_generated_data a) (files w) = Some Dir →
       artifact a EnsureCorpus (files w) →
       artifact a GenerateQueries (files w) →
       GenericDataLoader tk (Some (path_to_generated_data a))
         (Some (qgen_prefix a)) (files w) = Ok ldr →
       Loader_load tk ldr "train" (files w) = Ok d →
       posix.entry (path_to_generated_data a) "gpl-training-data.tsv"
         (files w) = None →
       Call_PseudoLabeler (path_to_generated_data a) (gpl_steps a)
         (batch_size_gpl a) (cross_encoder a) ∈ called (train tk a) w
       ∧ ∀ labeler,
           PseudoLabeler tk (path_to_generated_data a) d.1.2 d.1.1
             (gpl_steps a) (batch_size_gpl a) (cross_encoder a) (files w)
           = Ok labeler →
           ∃ j,
             assertions tk a w = (Ok tt, World (files w) (journal w ++ j))
             ∧ train tk a w
               = let w5 :=
                   World (Labeler_run tk labeler (files w)).2
                     (journal w ++ j ++
                      [Log INFO "Loading from existing generated data";
                       Called (Call_GenericDataLoader
                                 (Some (path_to_generated_data a))
                                 (Some (qgen_prefix a)));
                       Called (Call_load "train");
                       Log INFO "Using exisiting hard-negative data";
                       Log INFO "No GPL training data found. Now generating it via pseudo labeling";
                       Called (Call_PseudoLabeler (path_to_generated_data a)
                                 (gpl_steps a) (batch_size_gpl a)
                                 (cross_encoder a));
                       Called Call_Labeler_run]) in
                 match (Labeler_run tk labeler (files w)).1 with
                 | Ok _ => (fine_tune tk a d;; evaluation tk a) w5
                 | Raise e => (Raise e, w5)
                 end).
Proof.
  split_and!.
  - intros c Hc Hs.
    apply called_train_inv in Hc
      as [Hc|(w1 & H1 & [Hc|(w2 & H2 & [Hc|(d & w3 & H3 & [Hc|(w4 & H4 &
           [Hc|(w5 & H5 & [Hc|(w6 & H6 & Hc)])])])])])].
    + apply (called_in_stage _ 0) in Hc; [|apply phased_assertions].
      by rewrite Hs in Hc.
    + apply (called_in_stage _ 1) in Hc; [|apply phased_ensure_corpus].
      by rewrite Hs in Hc.
    + apply (called_in_stage _ 2) in Hc; [|apply phased_generate_queries].
      by rewrite Hs in Hc.
    + pose proof (keeps_negatives_assertions tk a w) as K1.
      rewrite H1 in K1. simpl in K1.
      pose proof (keeps_negatives_ensure_corpus tk a Hframe w1) as K2.
      rewrite H2 in K2. simpl in K2. rewrite K1 in K2.
      specialize (K2 Hnegatives).
      pose proof (keeps_negatives_generate_queries tk a Hframe w2) as K3.
      rewrite H3 in K3. simpl in K3. rewrite K2 in K3.
      specialize (K3 Hnegatives).
      destruct (mine_negatives_idle tk a w3) as [Hnone _].
      { by rewrite K3. }
      rewrite Hnone in Hc. by apply elem_of_nil in Hc.
    + apply (called_in_stage _ 4) in Hc; [|apply phased_pseudo_label].
      by rewrite Hs in Hc.
    + apply (called_in_stage _ 5) in Hc; [|apply phased_fine_tune].
      by rewrite Hs in Hc.
    + apply (called_in_stage _ 6) in Hc; [|apply phased_evaluation].
      by rewrite Hs in Hc.
  - by apply (keeps_negatives_train tk a Hframe w).
  - intros ldr d ???????. split.
    + by eapply called_after_labels_deleted.
    + intros labeler Hlab. by eapply labeler_run_after_labels_deleted.
Qed.

(** ** The data loader *)

Section loader.

Context {A : Type}.
Implicit Types (l : list A) (k bs i : nat).

Lemma concat_full_batches k bs l :
  concat (torch.full_batches k bs l) = take (k * bs) l.
Proof.
  revert l. induction k as [|k IH]; intros l; simpl; [done|].
  by rewrite IH, take_take_drop.
Qed.

Lemma full_batches_lookup k bs l i :
  i < k → torch.full_batches k bs l !! i = Some (take bs (drop (i * bs) l)).
Proof.
  revert l i. induction k as [|k IH]; intros l i Hi; [lia|].
  destruct i as [|i]; simpl; [done|].
  rewrite IH by lia. by rewrite drop_drop.
Qed.

Lemma length_full_batches k bs l : length (torch.full_batches k bs l) = k.
Proof. revert l. induction k as [|k IH]; intros l; simpl; by rewrite ?IH. Qed.

(** Without shuffling, and dropping the last incomplete batch, the loader
    cuts the dataset into consecutive batches, whatever order a shuffling
    sampler would have drawn. *)
Lemma DataLoader_sequential permute l batch_size batches :
  torch.DataLoader permute l false batch_size true = Ok batches →
  (0 < batch_size)%Z
  ∧ batches = torch.full_batches (length l / Z.to_nat batch_size)
                (Z.to_nat batch_size) l.
Proof.
  unfold torch.DataLoader. case_bool_decide; [done|].
  intros [= <-]. split; [lia|]. by rewrite app_nil_r.
Qed.

End loader.

Section feeding.

Context (tk : Toolkit).
Local Abbreviation E := (Example_ tk).

(** The batches handed to [fit] are the data loader's, over the dataset
    read from the label file as the stage found it. *)
Lemma fine_tune_fit a d w batches epochs steps warmup save limit out ckpt amp :
  Call_fit batches epochs steps warmup save limit out ckpt amp
    ∈ called (fine_tune tk a d) w →
  ∃ rows,
    GenerativePseudoLabelingDataset tk
      (os.path.join (path_to_generated_data a) "gpl-training-data.tsv")
      d.1.2 d.1.1 (files w) = Ok rows
    ∧ torch.DataLoader (sampler_order tk) rows false (batch_size_gpl a) true
      = Ok batches.
Proof.
  destruct d as [[c q] r]. unfold called, emitted, fine_tune, checkpoint_missing.
  munfold.
  repeat case_match; simplify_eq/=; journal_simpl; intros Hin;
    repeat (apply elem_of_cons in Hin as [Heq|Hin]; [try discriminate|]);
    try (by apply elem_of_nil in Hin);
    injection Heq as -> -> -> -> -> -> -> -> ->; eexists; by split.
Qed.

End feeding.

(** C4. Whenever [train] calls [fit], the batches it passes are consecutive
    slices, in order, of the sequence of examples the dataset yields for the
    label file [gpl-training-data.tsv], read in the file system as the
    fine-tuning stage found it: the loader is built with shuffling off, so
    the concatenation of the batches is a prefix of that sequence and the
    order a shuffling sampler would draw plays no part. *)
Theorem C4_batches_keep_row_order (tk : Toolkit) (a : args)
    (w : world (Example_ tk)) (batches : list (list (Example_ tk)))
    (epochs steps warmup save limit : Z) (out ckpt : string) (amp : bool)
    (Hfit : Call_fit batches epochs steps warmup save limit out ckpt amp
              ∈ called (train tk a) w) :
  ∃ (w5 : world (Example_ tk)) (d : Corpus tk * Queries tk * Qrels tk)
    (rows : list (Example_ tk)),
    (before tk a FineTune w).1 = Ok tt
    ∧ files w5 = files (before tk a FineTune w).2
    ∧ GenerativePseudoLabelingDataset tk
        (os.path.join (path_to_generated_data a) "gpl-training-data.tsv")
        d.1.2 d.1.1 (files w5) = Ok rows
    ∧ (0 < batch_size_gpl a)%Z
    ∧ batches = torch.full_batches
                  (length rows / Z.to_nat (batch_size_gpl a))
                  (Z.to_nat (batch_size_gpl a)) rows
    ∧ concat batches `prefix_of` rows
    ∧ (∀ i, i < length batches →
         batches !! i
         = Some (take (Z.to_nat (batch_size_gpl a))
                   (drop (i * Z.to_nat (batch_size_gpl a)) rows))).
Proof.
  apply called_train_inv in Hfit
    as [Hc|(w1 & H1 & [Hc|(w2 & H2 & [Hc|(d & w3 & H3 & [Hc|(w4 & H4 &
         [Hc|(w5 & H5 & [Hc|(w6 & H6 & Hc)])])])])])].
  - by apply (called_in_stage _ 0) in Hc; [|apply phased_assertions].
  - by apply (called_in_stage _ 1) in Hc; [|apply phased_ensure_corpus].
  - by apply (called_in_stage _ 2) in Hc; [|apply phased_generate_queries].
  - by apply (called_in_stage _ 3) in Hc; [|apply phased_mine_negatives].
  - by apply (called_in_stage _ 4) in Hc; [|apply phased_pseudo_label].
  - apply fine_tune_fit in Hc as (rows & Hrows & Hloader).
    apply DataLoader_sequential in Hloader as [Hpos ->].
    exists w5, d, rows.
    assert (before tk a FineTune w = (Ok tt, w5)) as Hb.
    { simpl. munfold. by rewrite H1, H2, H3, H4, H5. }
    rewrite Hb. split_and!; try done.
    + rewrite concat_full_batches. apply prefix_take.
    + intros i. rewrite length_full_batches. apply full_batches_lookup.
  - by apply (called_in_stage _ 6) in Hc; [|apply phased_evaluation].
Qed.

(** *** Stages that have nothing to do *)

Section idle.

Context {E : Type} (pre : fs → Prop).





End idle.

Section upstream.

Context (tk : Toolkit).
Local Abbreviation E := (Example_ tk).




End upstream.
Section checkpoint_path.


End checkpoint_path.


(** *** The cases of the first stage *)

Section ensure_corpus_cases.

Context (tk : Toolkit).
Local Abbreviation E := (Example_ tk).

(** Once the directory is made and listed: with [corpus.jsonl] in the
    listing the stage calls nothing; without it, the evaluation path must
    list [corpus.jsonl], else the stage raises the assertion error; when it
    does, [resize] is called with the target count if one is given, and the
    shell copy otherwise, whose status is not looked at. *)
Lemma ensure_corpus_cases a w l :
  let gen := path_to_generated_data a in
  let f1 := (posix.makedirs gen (files w)).2 in
  (posix.makedirs gen (files w)).1 = Ok tt →
  posix.listdir (Some gen) f1 = Ok l →
  (py_in "corpus.jsonl" l = true →
   ensure_corpus tk a w = (Ok tt, World f1 (journal w)))
  ∧ (py_in "corpus.jsonl" l = false →
     (∀ l', posix.listdir (evaluation_data a) f1 = Ok l' →
            py_in "corpus.jsonl" l' = false →
            (∃ msg, (ensure_corpus tk a w).1 = Raise (AssertionError (Some msg)))
            ∧ files (ensure_corpus tk a w).2 = f1
            ∧ called (ensure_corpus tk a) w = [])
     ∧ (∀ l' n, posix.listdir (evaluation_data a) f1 = Ok l' →
                py_in "corpus.jsonl" l' = true → new_size a = Some n →
                called (ensure_corpus tk a) w
                = [Call_resize (evaluation_data a) gen n]
                ∧ (ensure_corpus tk a w).1
                  = (resize tk (evaluation_data a) gen n f1).1
                ∧ files (ensure_corpus tk a w).2
                  = (resize tk (evaluation_data a) gen n f1).2)
     ∧ (∀ l' eval_, posix.listdir (evaluation_data a) f1 = Ok l' →
                py_in "corpus.jsonl" l' = true → new_size a = None →
                evaluation_data a = Some eval_ →
                ensure_corpus tk a w
                = (Ok tt,
                   World (os_system tk (copy_command a eval_) f1).2
                     (journal w ++
                      [Log INFO ("Corpus does not exist in " +:+ gen
                         +:+ ". Now clone the one from the evaluation path "
                         +:+ eval_);
                       Called (Call_os_system (copy_command a eval_))])))).
Proof.
  intros gen f1 Hmk Hl. subst gen.
  assert (∀ k : unit → M E unit,
            (act (posix.makedirs (path_to_generated_data a)) ≫= k) w
            = k tt (World f1 (journal w))) as Hstep.
  { intros k. by apply makedirs_then. }
  split.
  { intros Hin. unfold ensure_corpus. rewrite Hstep. munfold. simpl.
    by rewrite Hl, Hin. }
  intros Hin. split_and!.
  - intros l' Hl' Hin'. unfold called, emitted, ensure_corpus.
    rewrite Hstep. munfold. simpl. rewrite Hl, Hin. simpl.
    rewrite Hl', Hin'. simpl. split_and!; [by eexists|done|by journal_simpl].
  - intros l' n Hl' Hin' Hn. unfold called, emitted, ensure_corpus.
    rewrite Hstep. munfold. simpl. rewrite Hl, Hin. simpl.
    rewrite Hl', Hin', Hn. simpl.
    destruct (resize tk (evaluation_data a) (path_to_generated_data a) n f1)
      as [r f2] eqn:Hr.
    split_and!; [by journal_simpl|done..].
  - intros l' e Hl' Hin' Hn He. unfold ensure_corpus.
    rewrite Hstep. munfold. simpl. rewrite Hl, Hin. simpl.
    rewrite Hl', Hin', Hn, He. simpl. fold (copy_command a e).
    destruct (os_system tk (copy_command a e) f1) as [st f2] eqn:Hs.
    simpl. by rewrite <-(assoc_L (++)).
Qed.

End ensure_corpus_cases.

(** C6 (defect). The corpus is not always brought into the generated-data
    directory. Without a resize target the copy is a shell command made of
    the two paths as they are, and its exit status is not looked at: when
    the command fails and copies nothing, the stage returns normally all the
    same, the directory still holds no [corpus.jsonl], and the run only
    stops at the assertion of the next stage, unless the generated queries
    are there already. *)
Theorem C6_corpus_not_brought (tk : Toolkit) (a : args)
    (w : world (Example_ tk)) (eval_ : string) (l l' : list string) (st : Z)
    (Hmk : (posix.makedirs (path_to_generated_data a) (files w)).1 = Ok tt)
    (Hl : posix.listdir (Some (path_to_generated_data a))
            (posix.makedirs (path_to_generated_data a) (files w)).2 = Ok l)
    (Hin : py_in "corpus.jsonl" l = false)
    (Heval : evaluation_data a = Some eval_)
    (Hl' : posix.listdir (Some eval_)
             (posix.makedirs (path_to_generated_data a) (files w)).2 = Ok l')
    (Hin' : py_in "corpus.jsonl" l' = true)
    (Hsize : new_size a = None)
    (Hcp : os_system tk (copy_command a eval_)
             (posix.makedirs (path_to_generated_data a) (files w)).2
           = (st, (posix.makedirs (path_to_generated_data a) (files w)).2)) :
  let gen := path_to_generated_data a in
  let f1 := (posix.makedirs gen (files w)).2 in
  let j := [Log INFO ("Corpus does not exist in " +:+ gen
              +:+ ". Now clone the one from the evaluation path " +:+ eval_);
            Called (Call_os_system (copy_command a eval_))] in
  ensure_corpus tk a w = (Ok tt, World f1 (journal w ++ j))
  ∧ posix.entry gen "corpus.jsonl" (files (ensure_corpus tk a w).2) = None
  ∧ (¬ artifact a GenerateQueries f1 →
     ∀ w0, assertions tk a w0 = (Ok tt, w) →
       train tk a w0
       = (Raise (AssertionError (Some "At least corpus should exist!")),
          World f1
            (journal w ++ j ++
             [Log INFO "No generated data found. Now generating it"]))).
Proof.
  intros gen f1 j. subst gen.
  destruct (ensure_corpus_cases tk a w l Hmk Hl) as [_ Hcases].
  destruct (Hcases Hin) as (_ & _ & Hcopy).
  rewrite Heval in Hcopy.
  specialize (Hcopy l' eval_ Hl' Hin' Hsize eq_refl).
  rewrite Hcp in Hcopy. simpl in Hcopy.
  assert (posix.entry (path_to_generated_data a) "corpus.jsonl" f1 = None)
    as Hnone by (by eapply py_in_listdir_false).
  split_and!.
  - done.
  - by rewrite Hcopy.
  - intros Hnot w0 Ha. unfold train.
    rewrite run_bind, Ha. rewrite run_bind, Hcopy. rewrite run_bind.
    rewrite generate_queries_without_corpus;
      [simpl; by rewrite <-(assoc_L (++))|simpl..].
    + by eapply listdir_Ok_stat.
    + done.
    + done.
Qed.

(** C7 (defect). The evaluation data is not loaded before training. The
    assertions only build the data loader: of the collaborators they call
    nothing else, and with evaluation requested and a loader that gets built
    they return normally with no file looked at by [load]. Only an exception
    of the constructor itself aborts the run at once, raised as it is, with
    the error message in the journal, no file touched and no stage entered.
    When evaluation is not requested the loader is never built over the
    evaluation data, and with a supported pooling mode the assertions do
    nothing. *)
Theorem C7_evaluation_data_not_loaded (tk : Toolkit) (a : args)
    (w : world (Example_ tk)) :
  (∀ c, c ∈ called (assertions tk a) w →
        c = Call_GenericDataLoader (evaluation_data a) None)
  ∧ (∀ eval_ ldr,
       do_evaluation a = true →
       py_in (pooling a) ["mean"; "cls"; "max"] = true →
       evaluation_data a = Some eval_ →
       GenericDataLoader tk (Some eval_) None (files w) = Ok ldr →
       assertions tk a w
       = (Ok tt,
          World (files w)
            (journal w ++ [Called (Call_GenericDataLoader (Some eval_) None)])))
  ∧ (∀ eval_ x,
       do_evaluation a = true →
       py_in (pooling a) ["mean"; "cls"; "max"] = true →
       evaluation_data a = Some eval_ →
       GenericDataLoader tk (Some eval_) None (files w) = Raise x →
       train tk a w
       = (Raise x,
          World (files w)
            (journal w ++
             [Called (Call_GenericDataLoader (Some eval_) None);
              Log ERROR "Cannot load evaluation data for evaluation usage."])))
  ∧ (do_evaluation a = false →
     (∀ c, c ∈ called (train tk a) w → stage_of c ≠ Assertions)
     ∧ (py_in (pooling a) ["mean"; "cls"; "max"] = true →
        assertions tk a w = (Ok tt, w))).
Proof.
  split_and!.
  - unfold called, emitted, assertions. munfold.
    repeat case_match; simplify_eq/=; journal_simpl; intros c Hc;
      repeat (apply elem_of_cons in Hc as [->|Hc]; [done|]);
      by apply elem_of_nil in Hc.
  - intros e ldr Hdo Hpool He Hldr. unfold assertions. munfold.
    rewrite Hpool, Hdo, He. simpl. by rewrite Hldr.
  - intros e x Hdo Hpool He Hx. unfold train, assertions. munfold.
    rewrite Hpool, Hdo, He. simpl. rewrite Hx. simpl.
    by rewrite <-(assoc_L (++)).
  - intros Hdo.
    assert (called (assertions tk a) w = []) as Hnone.
    { unfold called, emitted, assertions. munfold. rewrite Hdo.
      repeat case_match; simplify_eq/=; by journal_simpl. }
    split.
    + intros c Hc.
      apply called_train_inv in Hc
        as [Hc|(w1 & H1 & [Hc|(w2 & H2 & [Hc|(d & w3 & H3 & [Hc|(w4 & H4 &
             [Hc|(w5 & H5 & [Hc|(w6 & H6 & Hc)])])])])])].
      * rewrite Hnone in Hc. by apply elem_of_nil in Hc.
      * apply (called_in_stage _ 1) in Hc; [|apply phased_ensure_corpus].
        by destruct (stage_of c).
      * apply (called_in_stage _ 2) in Hc; [|apply phased_generate_queries].
        by destruct (stage_of c).
      * apply (called_in_stage _ 3) in Hc; [|apply phased_mine_negatives].
        by destruct (stage_of c).
      * apply (called_in_stage _ 4) in Hc; [|apply phased_pseudo_label].
        by destruct (stage_of c).
      * apply (called_in_stage _ 5) in Hc; [|apply phased_fine_tune].
        by destruct (stage_of c).
      * apply (called_in_stage _ 6) in Hc; [|apply phased_evaluation].
        by destruct (stage_of c).
    + intros Hpool. unfold assertions. munfold. by rewrite Hpool, Hdo.
Qed.

(** C9. With [corpus.jsonl] already in the generated-data directory the
    first stage returns the world as it found it, whatever the resize target
    and the evaluation path: [train] behaves the same for every value of
    [new_size] and makes no call of that stage. In any run at all, a call of
    [resize] means that the directory did not hold [corpus.jsonl] when the
    run started. *)
Theorem C9_resize_only_populates (tk : Toolkit) (a : args)
    (w : world (Example_ tk))
    (Hgen : posix.stat (path_to_generated_data a) (files w) = Some Dir)
    (Hcorpus : artifact a EnsureCorpus (files w)) :
  ensure_corpus tk a w = (Ok tt, w)
  ∧ (∀ n, train tk (with_new_size n a) w = train tk a w)
  ∧ (∀ c, c ∈ called (train tk a) w → stage_of c ≠ EnsureCorpus)
  ∧ (∀ (w' : world (Example_ tk)) src dst n,
       Call_resize src dst n ∈ called (train tk a) w' →
       posix.entry (path_to_generated_data a) "corpus.jsonl" (files w') = None).
Proof.
  split_and!.
  - by apply ensure_corpus_present.
  - intros n. unfold train. rewrite !(run_bind (assertions _ _)).
    change (assertions tk (with_new_size n a)) with (assertions tk a).
    pose proof (assertions_files tk a w) as Hf.
    destruct (assertions tk a w) as [[[]|e] w0]; [|done]. simpl in Hf.
    rewrite !(run_bind (ensure_corpus _ _)).
    rewrite !ensure_corpus_present by (by rewrite ?Hf). done.
  - intros c Hc.
    apply called_train_inv in Hc
      as [Hc|(w1 & H1 & [Hc|(w2 & H2 & [Hc|(d & w3 & H3 & [Hc|(w4 & H4 &
           [Hc|(w5 & H5 & [Hc|(w6 & H6 & Hc)])])])])])].
    + apply (called_in_stage _ 0) in Hc; [|apply phased_assertions].
      by destruct (stage_of c).
    + pose proof (assertions_files tk a w) as Hf. rewrite H1 in Hf.
      simpl in Hf. unfold called, emitted in Hc.
      rewrite ensure_corpus_present in Hc by (by rewrite ?Hf).
      simpl in Hc. rewrite drop_all in Hc. by apply elem_of_nil in Hc.
    + apply (called_in_stage _ 2) in Hc; [|apply phased_generate_queries].
      by destruct (stage_of c).
    + apply (called_in_stage _ 3) in Hc; [|apply phased_mine_negatives].
      by destruct (stage_of c).
    + apply (called_in_stage _ 4) in Hc; [|apply phased_pseudo_label].
      by destruct (stage_of c).
    + apply (called_in_stage _ 5) in Hc; [|apply phased_fine_tune].
      by destruct (stage_of c).
    + apply (called_in_stage _ 6) in Hc; [|apply phased_evaluation].
      by destruct (stage_of c).
  - clear w Hgen Hcorpus. intros w src dst n Hc.
    apply called_train_inv in Hc
      as [Hc|(w1 & H1 & [Hc|(w2 & H2 & [Hc|(d & w3 & H3 & [Hc|(w4 & H4 &
           [Hc|(w5 & H5 & [Hc|(w6 & H6 & Hc)])])])])])];
      try (by apply (called_in_stage _ 0) in Hc; [|apply phased_assertions]);
      try (by apply (called_in_stage _ 2) in Hc;
             [|apply phased_generate_queries]);
      try (by apply (called_in_stage _ 3) in Hc; [|apply phased_mine_negatives]);
      try (by apply (called_in_stage _ 4) in Hc; [|apply phased_pseudo_label]);
      try (by apply (called_in_stage _ 5) in Hc; [|apply phased_fine_tune]);
      try (by apply (called_in_stage _ 6) in Hc; [|apply phased_evaluation]).
    pose proof (assertions_files tk a w) as Hf. rewrite H1 in Hf.
    simpl in Hf. rewrite <-Hf. clear H1 Hf.
    destruct (posix.entry (path_to_generated_data a) "corpus.jsonl" (files w1))
      as [v|] eqn:Hv; [exfalso|done].
    unfold called, emitted in Hc.
    rewrite ensure_corpus_present in Hc;
      [|by eapply entry_stat|by exists v].
    simpl in Hc. rewrite drop_all in Hc. by apply elem_of_nil in Hc.
Qed.



(** ** The reference toolkit meets the contracts *)

Section stub_facts.

Import Stub.

(** [write] either fails and leaves the disk alone, or puts a regular file
    where its name leads, in a directory, where no directory is. *)
Lemma write_inv name c f :
  ((write name c f).2 = f ∧ ∃ e, (write name c f).1 = Raise e)
  ∨ ∃ p, write name c f = (Ok tt, FS (cwd f) (<[p := File c]> (nodes f)))
         ∧ posix.walk f [] (posix.origin f name ++ os.path.components name)
           = inr p
         ∧ node_at f p ≠ Some Dir.
Proof.
  unfold write. case_bool_decide; [left; eauto|].
  destruct (posix.walk f [] _) as [e|p] eqn:Hw; [left; eauto|].
  destruct (os.path.endswith_sep name); [left; eauto|].
  destruct (node_at f p) as [[x|]|] eqn:Hn; [right|left; eauto|right];
    exists p; by rewrite Hn.
Qed.

Lemma file_put_dir p c f q :
  node_at f p ≠ Some Dir → node_at f q = Some Dir →
  node_at (FS (cwd f) (<[p := File c]> (nodes f))) q = Some Dir.
Proof.
  intros Hp Hq. destruct q as [|x q]; [done|]. simpl in *.
  rewrite lookup_insert_ne; [done|]. intros ->. by destruct Hp.
Qed.

Lemma file_put_walk p c f cs d :
  node_at f p ≠ Some Dir → posix.walk f [] cs = inr d →
  posix.walk (FS (cwd f) (<[p := File c]> (nodes f))) [] cs = inr d.
Proof.
  intros Hp. apply walk_agree; [|apply above_root].
  intros q Hq. by apply file_put_dir, dir_at_node.
Qed.

Lemma file_put_lookup p c f name d :
  node_at f p ≠ Some Dir →
  posix.lookup f name = inr d → node_at f d = Some Dir →
  posix.lookup (FS (cwd f) (<[p := File c]> (nodes f))) name = inr d.
Proof.
  intros Hp (Hne & Hw & _)%lookup_inv Hd.
  apply lookup_walk; [done|by apply file_put_walk|].
  intros _. by apply file_put_dir.
Qed.

(** Writing a file leaves every entry of another name as it is. *)
Lemma write_entry_other dir name dir' name' c f v :
  plain name' = true → name ≠ name' →
  posix.entry dir name f = Some v →
  posix.entry dir name (write (os.path.join dir' name') c f).2 = Some v.
Proof.
  intros Hp Hne Hv. pose proof Hv as (d & Hd & Hn & Hnode)%entry_inv.
  destruct (write_inv (os.path.join dir' name') c f)
    as [[-> _]|(p & -> & Hw & Hnd)]; [done|].
  simpl. rewrite walk_join in Hw by done.
  destruct (posix.walk f [] _) as [e|q]; [done|].
  destruct (node_at f q) as [[]|]; try done. injection Hw as <-.
  rewrite (entry_lookup _ _ d);
    [|by apply file_put_lookup|by apply file_put_dir].
  simpl. rewrite lookup_insert_ne; [done|].
  intros [_ ?]%app_inj_tail. congruence.
Qed.

Lemma write_spares dir name dir' name' c f :
  plain name' = true → name ≠ name' →
  is_Some (posix.entry dir name f) →
  posix.entry dir name (write (os.path.join dir' name') c f).2
  = posix.entry dir name f.
Proof. intros Hp Hne [v Hv]. rewrite Hv. by apply write_entry_other. Qed.


Lemma makedirs_spares dir name x f :
  is_Some (posix.entry dir name f) →
  posix.entry dir name (posix.makedirs x f).2 = posix.entry dir name f.
Proof. intros [v Hv]. rewrite Hv. by apply makedirs_entry. Qed.


Lemma seq_spares {X} (obs : fs → option X) x y f :
  (∀ f, is_Some (obs f) → obs (x f).2 = obs f) →
  (∀ f, is_Some (obs f) → obs (y f).2 = obs f) →
  is_Some (obs f) → obs (seq x y f).2 = obs f.
Proof.
  intros Hx Hy Hf. unfold seq. specialize (Hx f Hf).
  destruct (x f) as [[[]|e] f1]; simpl in *; [|done].
  rewrite Hy; [done|]. by rewrite Hx.
Qed.

(** *** The artifact contract *)





(** *** The mined negatives are left alone *)

Lemma cp_one_spares dir name src dst f :
  plain (os.path.split src).2 = true → name ≠ (os.path.split src).2 →
  posix.isdir dst f = true →
  is_Some (posix.entry dir name f) →
  posix.entry dir name (cp_one src dst f).2 = posix.entry dir name f.
Proof.
  intros Hp Hne Hdst Hn. unfold cp_one.
  destruct (posix.stat src f) as [[c|]|]; [|done..]. rewrite Hdst.
  pose proof (write_spares dir name dst _ c f Hp Hne Hn) as H.
  by destruct (write _ c f) as [[[]|e] f'].
Qed.

Lemma shell_cp_spares name src dir command f :
  String.words command = ["cp"; src; dir] →
  plain (os.path.split src).2 = true → name ≠ (os.path.split src).2 →
  is_Some (posix.entry dir name f) →
  posix.entry dir name (shell command f).2 = posix.entry dir name f.
Proof.
  intros Hw Hp Hne Hn. unfold shell. rewrite Hw.
  cbn [last removelast]. rewrite bool_decide_eq_false_2 by done.
  assert (posix.isdir dir f = true) as Hdir.
  { destruct Hn as [v Hv]. apply bool_decide_eq_true. by eapply entry_stat. }
  rewrite Hdir. cbn [orb foldl cp_into].
  pose proof (cp_one_spares dir name src dir f Hp Hne Hdir Hn) as H.
  by destruct (cp_one src dir f) as [ok f'].
Qed.

Lemma stub_copy_command :
  String.words (copy_command default_args "eval")
  = ["cp"; "eval/corpus.jsonl"; "gen"].
Proof. vm_compute. reflexivity. Qed.

Lemma stub_spares_negatives : spares_negatives toolkit default_args.
Proof.
  split_and!.
  - intros n f Hn. cbn [resize toolkit].
    destruct (_ ≫= _) as [[c|]|]; [|done..]. by apply write_spares.
  - intros e f [= <-] Hn.
    by apply (shell_cp_spares _ "eval/corpus.jsonl" "gen");
      [apply stub_copy_command|..].
  - intros f Hn. cbn [qgen toolkit].
    destruct (posix.exists_ _ f); [|done].
    apply (seq_spares (posix.entry _ _)); [|intros f1 H1|done].
    { intros f1 H1. by apply makedirs_spares. }
    apply (seq_spares (posix.entry _ _)); [| |done];
      intros f2 H2; by apply write_spares.
  - intros labeler f Hn. by apply write_spares.
  - intros model batches loss f Hn. cbn [Model_fit toolkit].
    apply (seq_spares (posix.entry _ _)); [| |done]; intros f1 H1.
    + by apply makedirs_spares.
    + by apply write_spares.
  - intros f Hn. cbn [evaluate toolkit].
    destruct (posix.isdir _ f); [|done].
    destruct (load _ "test" f); [|done].
    destruct (evaluation_output default_args) as [o|]; [|done].
    apply (seq_spares (posix.entry _ _)); [| |done]; intros f1 H1.
    + by apply makedirs_spares.
    + by apply write_spares.
Qed.

End stub_facts.

(** ** The claims on runs of the reference toolkit *)

Ltac in_computed_list :=
  apply list_elem_of_In; vm_compute;
  repeat (first [left; reflexivity | right]).

(** C3 (instance). The labels are deleted from the disk of a complete run
    and [train] is run again: the labeler is built over "gen" and run on the
    disk as it was found. *)
Lemma C3_rerun_after_labels_deleted_witness :
  let a := Stub.default_args in
  let w := Stub.start
             (Stub.remove ["gen"; "gpl-training-data.tsv"] Stub.complete_disk) in
  artifact a MineNegatives (files w)
  ∧ spares_negatives Stub.toolkit a
  ∧ (∀ c, c ∈ called (train Stub.toolkit a) w → stage_of c ≠ MineNegatives)
  ∧ posix.entry "gen" "hard-negatives.jsonl" (files (train Stub.toolkit a w).2)
    = posix.entry "gen" "hard-negatives.jsonl" (files w)
  ∧ Call_PseudoLabeler "gen" 140000 2 "cross-encoder/ms-marco-MiniLM-L-6-v2"
      ∈ called (train Stub.toolkit a) w
  ∧ ∃ j,
      assertions Stub.toolkit a w = (Ok tt, World (files w) (journal w ++ j))
      ∧ train Stub.toolkit a w
        = let w5 :=
            World (Labeler_run Stub.toolkit "gen" (files w)).2
              (journal w ++ j ++
               [Log INFO "Loading from existing generated data";
                Called (Call_GenericDataLoader (Some "gen") (Some "qgen"));
                Called (Call_load "train");
                Log INFO "Using exisiting hard-negative data";
                Log INFO "No GPL training data found. Now generating it via pseudo labeling";
                Called (Call_PseudoLabeler "gen" 140000 2
                          "cross-encoder/ms-marco-MiniLM-L-6-v2");
                Called Call_Labeler_run]) in
          match (Labeler_run Stub.toolkit "gen" (files w)).1 with
          | Ok _ =>
              (fine_tune Stub.toolkit a (tt, tt, tt);;
               evaluation Stub.toolkit a) w5
          | Raise e => (Raise e, w5)
          end.
Proof.
  intros a w.
  assert (artifact a MineNegatives (files w)) as Hn by (vm_compute; eauto).
  destruct (C3_rerun_after_labels_deleted Stub.toolkit a w Hn
              stub_spares_negatives) as (H1 & H2 & H3).
  split_and!; [done|apply stub_spares_negatives|done..| |].
  - apply (H3 (Some "gen", Some "qgen") (tt, tt, tt)).
    + vm_compute. reflexivity.
    + vm_compute. reflexivity.
    + vm_compute. eauto.
    + split; vm_compute; eauto.
    + vm_compute. reflexivity.
    + vm_compute. reflexivity.
    + vm_compute. reflexivity.
  - apply (H3 (Some "gen", Some "qgen") (tt, tt, tt)).
    + vm_compute. reflexivity.
    + vm_compute. reflexivity.
    + vm_compute. eauto.
    + split; vm_compute; eauto.
    + vm_compute. reflexivity.
    + vm_compute. reflexivity.
    + vm_compute. reflexivity.
    + vm_compute. reflexivity.
Defined.

(** C4 (instance). A complete run over the fresh disk with batches of two:
    five label rows give two batches, the first four rows in order. *)
Lemma C4_batches_keep_row_order_witness :
  let a := Stub.default_args in
  let w := Stub.start Stub.fresh_disk in
  let batches := [["q1 p1 p2 0.7"; "q1 p1 p3 0.4"];
                  ["q1 p1 p2 0.7"; "q1 p1 p3 0.4"]] in
  Call_fit batches 1 140000 1000 10000 10000 "out" "out" false
    ∈ called (train Stub.toolkit a) w
  ∧ ∃ (w5 : world string) (d : unit * unit * unit) (rows : list string),
      (before Stub.toolkit a FineTune w).1 = Ok tt
      ∧ files w5 = files (before Stub.toolkit a FineTune w).2
      ∧ GenerativePseudoLabelingDataset Stub.toolkit
          (os.path.join "gen" "gpl-training-data.tsv") d.1.2 d.1.1 (files w5)
        = Ok rows
      ∧ (0 < 2)%Z
      ∧ batches = torch.full_batches (length rows / Z.to_nat 2) (Z.to_nat 2) rows
      ∧ concat batches `prefix_of` rows
      ∧ (∀ i, i < length batches →
           batches !! i = Some (take (Z.to_nat 2) (drop (i * Z.to_nat 2) rows))).
Proof.
  intros a w batches.
  assert (Call_fit batches 1 140000 1000 10000 10000 "out" "out" false
            ∈ called (train Stub.toolkit a) w) as Hfit by in_computed_list.
  split; [done|].
  apply (C4_batches_keep_row_order Stub.toolkit a w batches _ _ _ _ _ _ _ _ Hfit).
Defined.


(** C6 (instance). The generated-data path "my gen" on the fresh disk: the
    directory is made, the evaluation path lists the corpus, and the shell
    takes the words of [cp eval/corpus.jsonl my gen] for two sources and
    the target "gen", which is no directory. Nothing is copied, the stage
    returns normally, and the run stops at the assertion of query
    generation. *)
Lemma C6_corpus_not_brought_witness :
  let a := Stub.make_args "my gen" (Some "eval") false "mean" None 140000 2
             Stub.default_retrievers in
  let w := Stub.start Stub.fresh_disk in
  let f1 := Stub.put ["my gen"] Dir Stub.fresh_disk in
  let j := [Log INFO "Corpus does not exist in my gen. Now clone the one from the evaluation path eval";
            Called (Call_os_system "cp eval/corpus.jsonl my gen")] in
  posix.entry "eval" "corpus.jsonl" (files w)
  = Some (File (Stub.unrows ["P1"; "P2"; "P3"]))
  ∧ ensure_corpus Stub.toolkit a w = (Ok tt, World f1 j)
  ∧ posix.entry "my gen" "corpus.jsonl"
      (files (ensure_corpus Stub.toolkit a w).2) = None
  ∧ train Stub.toolkit a w
    = (Raise (AssertionError (Some "At least corpus should exist!")),
       World f1 (j ++ [Log INFO "No generated data found. Now generating it"])).
Proof.
  intros a w f1 j.
  destruct (C6_corpus_not_brought Stub.toolkit a w "eval" [] ["corpus.jsonl"]
              256%Z) as (H1 & H2 & H3); try (vm_compute; reflexivity).
  assert (¬ artifact a GenerateQueries
              (posix.makedirs (path_to_generated_data a) (files w)).2)
    as Hnot.
  { intros [[n Hn] _]. vm_compute in Hn. discriminate. }
  split_and!.
  - vm_compute. reflexivity.
  - rewrite H1. vm_compute. reflexivity.
  - exact H2.
  - rewrite (H3 Hnot w eq_refl). vm_compute. reflexivity.
Defined.

(** C7 (instance). Evaluation is requested over "eval", which holds a
    corpus and nothing else: its test split does not load. The assertions
    pass all the same, every stage runs, the model is trained, and the
    error is only raised by the final evaluation. *)
Lemma C7_evaluation_data_not_loaded_witness :
  let a := Stub.make_args "gen" (Some "eval") true "mean" None 140000 2
             Stub.default_retrievers in
  let w := Stub.start Stub.fresh_disk in
  let e := ValueError "File eval/queries.jsonl not present! Please provide accurate file." in
  Loader_load Stub.toolkit (Some "eval", None) "test" (files w) = Raise e
  ∧ assertions Stub.toolkit a w
    = (Ok tt, World (files w) [Called (Call_GenericDataLoader (Some "eval") None)])
  ∧ (train Stub.toolkit a w).1 = Raise e
  ∧ called (train Stub.toolkit a) w
    = [Call_GenericDataLoader (Some "eval") None;
       Call_os_system "cp eval/corpus.jsonl gen";
       Call_qgen "gen" "gen" "BeIR/query-gen-msmarco-t5-base-v1" 3 32 "qgen";
       Call_GenericDataLoader (Some "gen") (Some "qgen"); Call_load "train";
       Call_NegativeMiner "gen" "qgen" Stub.default_retrievers;
       Call_Miner_run;
       Call_PseudoLabeler "gen" 140000 2 "cross-encoder/ms-marco-MiniLM-L-6-v2";
       Call_Labeler_run;
       Call_Transformer "distilbert-base-uncased" 350;
       Call_get_word_embedding_dimension;
       Call_Pooling 768 "mean";
       Call_SentenceTransformer;
       Call_GenerativePseudoLabelingDataset "gen/gpl-training-data.tsv";
       Call_MarginDistillationLoss;
       Call_fit [["q1 p1 p2 0.7"; "q1 p1 p3 0.4"];
                 ["q1 p1 p2 0.7"; "q1 p1 p3 0.4"]]
         1 140000 1000 10000 10000 "out" "out" false;
       Call_evaluate (Some "eval") (Some "results") "out/140000" 350 "dot"
         "mean"].
Proof.
  intros a w e.
  destruct (C7_evaluation_data_not_loaded Stub.toolkit a w) as (_ & H & _).
  split_and!.
  - vm_compute. reflexivity.
  - apply (H "eval" (Some "eval", None)); vm_compute; reflexivity.
  - vm_compute. reflexivity.
  - vm_compute. reflexivity.
Defined.


(** C9 (instance). The disk of a complete run, run again with a resize
    target. *)
Lemma C9_resize_only_populates_witness :
  let a := Stub.default_args in
  let w := Stub.start Stub.complete_disk in
  ensure_corpus Stub.toolkit a w = (Ok tt, w)
  ∧ train Stub.toolkit (with_new_size (Some 1%Z) a) w = train Stub.toolkit a w.
Proof.
  intros a w.
  destruct (C9_resize_only_populates Stub.toolkit a w) as (H1 & H2 & _).
  - vm_compute. reflexivity.
  - vm_compute. eauto.
  - split; [exact H1|apply H2].
Defined.

